(** * Akamai platform: identity override and metadata translation

    A shallow embedding of
    [internal/app/machined/pkg/runtime/v1alpha1/platform/akamai/akamai.go]:
    the helpers [isInvalidUUID] and [generateLinodeUUID], the reconciler
    [ensureValidUUID] over a resource store, and the translation
    [ParseMetadata] from Akamai metadata to a platform network config. *)

From Stdlib Require Import ZArith String Ascii List Lia.
From stdpp Require Import base option list gmap strings.

Open Scope string_scope.
Open Scope Z_scope.

(** ** Errors *)

(** Go [error] values as far as the package tells them apart: the two error
    classes of the resource store, any other failure, and [fmt.Errorf] with a
    [%w] verb, which keeps the wrapped cause reachable for [errors.As]. *)
Inductive error : Type :=
| ErrNotFound (what : string)
| ErrConflict (what : string)
| ErrOther (msg : string)
| Errorf (format : string) (args : list string) (cause : error).

(** [state.IsNotFoundError]: [errors.As] walks the chain of wrapped causes. *)
Fixpoint IsNotFoundError (err : error) : bool :=
  match err with
  | ErrNotFound _ => true
  | Errorf _ _ cause => IsNotFoundError cause
  | _ => false
  end.

(** [state.IsConflictError]. *)
Fixpoint IsConflictError (err : error) : bool :=
  match err with
  | ErrConflict _ => true
  | Errorf _ _ cause => IsConflictError cause
  | _ => false
  end.

(** A Go result pair [(T, error)] of which exactly one side is meaningful. *)
Inductive Result (A : Type) : Type :=
| OK (a : A)
| Err (e : error).
Arguments OK {A} a.
Arguments Err {A} e.

(** ** Decimal formatting ([strconv.Itoa], [fmt] verbs [%d] and [%012d]) *)

Definition digitChar (d : Z) : ascii := ascii_of_nat (48 + Z.to_nat d).

(** The digit loop of [fmt]: digits are produced right to left while
    [u >= 10], then the leading digit is written. *)
Fixpoint fmtDigits (fuel : nat) (u : Z) (acc : string) : string :=
  if u <? 10 then String (digitChar u) acc
  else match fuel with
       | O => acc
       | S fuel' => fmtDigits fuel' (u / 10) (String (digitChar (u mod 10)) acc)
       end.

(** Decimal text of a non-negative integer; a number has no more decimal
    digits than bits, so the fuel never runs out ([fmtDigits_fuel]). *)
Definition utoa (u : Z) : string := fmtDigits (Z.to_nat (Z.log2 u)) u "".

Fixpoint zeros (n : nat) : string :=
  match n with
  | O => ""
  | S n' => String "0" (zeros n')
  end.

(** Left padding with zeros up to [prec] digits. *)
Definition padZeros (prec : nat) (digits : string) : string :=
  zeros (prec - String.length digits) ++ digits.

(** [strconv.Itoa(n)], also the verb [%d]. *)
Definition Itoa (n : Z) : string :=
  if n <? 0 then String "-" (utoa (- n)) else utoa n.

(** The verb [%0<width>d]: the zero flag turns the width into a digit
    precision, leaving room for the sign of a negative number. *)
Definition Sprintf_0d (width : nat) (n : Z) : string :=
  if n <? 0 then String "-" (padZeros (width - 1) (utoa (- n)))
  else padZeros width (utoa n).

(** ** UUID helpers *)

Definition zeroUUID : string := "00000000-0000-0000-0000-000000000000".

(** isInvalidUUID checks if a UUID is invalid (empty or all-zeros). *)
Definition isInvalidUUID (uuid : string) : bool :=
  if String.eqb uuid "" then true
  else if String.eqb uuid "00000000-0000-0000-0000-000000000000" then true
  else false.

(** generateLinodeUUID creates a UUID from Linode instance ID. *)
Definition generateLinodeUUID (linodeID : Z) : string :=
  let linodeIDStr := Sprintf_0d 12 linodeID in
  "00000000-0000-0000-0000-" ++ linodeIDStr.

(** The spec's wording of the last group, independent of the formatter:
    [width] decimal digits, most significant first, digit [i] from the right
    being [(id / 10^i) mod 10]. *)
Fixpoint zeroPadded (width : nat) (id : Z) : string :=
  match width with
  | O => ""
  | S w => zeroPadded w (id / 10) ++ String (digitChar (id mod 10)) ""
  end.

(** The value of a string of decimal digits, most significant first, on top
    of the value [acc] read so far; nothing when a byte is not a digit. *)
Definition isDigit (c : ascii) : bool :=
  let n := Z.of_nat (nat_of_ascii c) in (48 <=? n) && (n <=? 57).

Fixpoint parseDecimal (s : string) (acc : Z) : option Z :=
  match s with
  | EmptyString => Some acc
  | String c rest =>
      if isDigit c then parseDecimal rest (acc * 10 + (Z.of_nat (nat_of_ascii c) - 48))
      else None
  end.

(** ** The resource store ([state.State])

    The store is an external collaborator: only its Get/Create contract is
    consumed. Resources are kept per type, keyed by their ID (every type
    lives in its default namespace); a request is either failed by the
    environment with some error, leaving the store as it was, or served from
    the store's contents. *)

Inductive ResourceType : Type :=
| MetaKeyType
| SystemInformationType.

(** Modelled from the spec: [runtimeres.MetaKeySpec] is declared outside
    this package; the identity override is "a singleton keyed record
    { value: string }". *)
Record MetaKeySpec : Type := { Value : string }.

(** Modelled from the spec: [hardware.SystemInformationSpec] is declared
    outside this package; the hardware identity is the read-only input
    "{ uuid: string }", the only field this package reads. *)
Record SystemInformationSpec : Type := { UUID : string }.

Inductive Resource : Type :=
| MetaKey (id : string) (spec : MetaKeySpec)
| SystemInformation (id : string) (spec : SystemInformationSpec).

Record Store : Type := {
  MetaKeys : gmap string MetaKeySpec;
  SystemInformations : gmap string SystemInformationSpec
}.

Inductive Request : Type :=
| Get (t : ResourceType) (id : string)
| Create (r : Resource)
| Update (r : Resource)
| Destroy (t : ResourceType) (id : string).

Inductive Response : Type :=
| Found (r : Resource)
| Done
| Failed (err : error).

(** What the environment does to a request before the store sees it: [None]
    lets it through, [Some err] fails it (cancelled context, transport or
    storage failure, ...). *)
Definition Env : Type := Request -> option error.

(** An environment in which every request reaches the store. *)
Definition reliable : Env := fun _ => None.

Definition lookupResource (st : Store) (t : ResourceType) (id : string) : option Resource :=
  match t with
  | MetaKeyType => MetaKey id <$> MetaKeys st !! id
  | SystemInformationType => SystemInformation id <$> SystemInformations st !! id
  end.

Definition typeOf (r : Resource) : ResourceType :=
  match r with
  | MetaKey _ _ => MetaKeyType
  | SystemInformation _ _ => SystemInformationType
  end.

Definition idOf (r : Resource) : string :=
  match r with
  | MetaKey id _ => id
  | SystemInformation id _ => id
  end.

Definition putResource (st : Store) (r : Resource) : Store :=
  match r with
  | MetaKey id spec =>
      {| MetaKeys := <[id := spec]> (MetaKeys st);
         SystemInformations := SystemInformations st |}
  | SystemInformation id spec =>
      {| MetaKeys := MetaKeys st;
         SystemInformations := <[id := spec]> (SystemInformations st) |}
  end.

Definition dropResource (st : Store) (t : ResourceType) (id : string) : Store :=
  match t with
  | MetaKeyType =>
      {| MetaKeys := delete id (MetaKeys st);
         SystemInformations := SystemInformations st |}
  | SystemInformationType =>
      {| MetaKeys := MetaKeys st;
         SystemInformations := delete id (SystemInformations st) |}
  end.

(** The store's own answer: Get fails with not-found on an absent resource,
    Create with a conflict on a present one (insert if absent), Update and
    Destroy with not-found on an absent one. *)
Definition serve (st : Store) (req : Request) : Store * Response :=
  match req with
  | Get t id =>
      match lookupResource st t id with
      | Some r => (st, Found r)
      | None => (st, Failed (ErrNotFound id))
      end
  | Create r =>
      match lookupResource st (typeOf r) (idOf r) with
      | Some _ => (st, Failed (ErrConflict (idOf r)))
      | None => (putResource st r, Done)
      end
  | Update r =>
      match lookupResource st (typeOf r) (idOf r) with
      | Some _ => (putResource st r, Done)
      | None => (st, Failed (ErrNotFound (idOf r)))
      end
  | Destroy t id =>
      match lookupResource st t id with
      | Some _ => (dropResource st t id, Done)
      | None => (st, Failed (ErrNotFound id))
      end
  end.

(** Store calls thread the store and log every request with its response. *)
Definition Log : Type := list (Request * Response).

Definition M (A : Type) : Type := Env -> Store -> A * Store * Log.

Definition ret {A : Type} (a : A) : M A := fun _ st => (a, st, []).

Definition bind {A B : Type} (m : M A) (k : A -> M B) : M B :=
  fun env st =>
    let '(a, st1, log1) := m env st in
    let '(b, st2, log2) := k a env st1 in
    (b, st2, (log1 ++ log2)%list).

#[global] Instance M_ret : MRet M := @ret.
#[global] Instance M_bind : MBind M := fun A B k m => bind m k.

(** The response to a request and the store it leaves. *)
Definition answer (env : Env) (st : Store) (req : Request) : Response :=
  match env req with
  | Some err => Failed err
  | None => (serve st req).2
  end.

Definition effect (env : Env) (st : Store) (req : Request) : Store :=
  match env req with
  | Some _ => st
  | None => (serve st req).1
  end.

Definition call (req : Request) : M Response :=
  fun env st => (answer env st req, effect env st req, [(req, answer env st req)]).

(** [safe.ReaderGetByID[*runtimeres.MetaKey]]: the typed read returns the
    resource or the error, never both. *)
Definition ReaderGetByID_MetaKey (id : string) : M (Result MetaKeySpec) :=
  resp ← call (Get MetaKeyType id);
  ret match resp with
      | Found (MetaKey _ spec) => OK spec
      | Failed err => Err err
      | _ => Err (ErrOther "type mismatch")
      end.

(** [safe.ReaderGetByID[*hardware.SystemInformation]] *)
Definition ReaderGetByID_SystemInformation (id : string) : M (Result SystemInformationSpec) :=
  resp ← call (Get SystemInformationType id);
  ret match resp with
      | Found (SystemInformation _ spec) => OK spec
      | Failed err => Err err
      | _ => Err (ErrOther "type mismatch")
      end.

(** [r.Create(ctx, res)]: [nil] or the error. *)
Definition StateCreate (res : Resource) : M (option error) :=
  resp ← call (Create res);
  ret match resp with
      | Failed err => Some err
      | _ => None
      end.

(** ** ensureValidUUID *)

(** The two well-known resource IDs are declared outside this package
    ([runtimeres.MetaKeyTagToID(meta.UUIDOverride)] and
    [hardware.SystemInformationID]); the reconciler is parametric in them. *)
Class ResourceIDs : Type := {
  UUIDOverrideID : string;
  SystemInformationID : string
}.

Definition getSystemInformationFailed : string :=
  "failed to get system information: %w".

Definition createOverrideFailed : string :=
  "failed to create UUID override for invalid SMBIOS UUID %q: %w".

(** Last part of the function, from the declaration of [shouldOverride]:
    [systemInfo] is [None] for the nil pointer. *)
Definition overrideIfNeeded `{ResourceIDs}
    (systemInfo : option SystemInformationSpec) (linodeID : Z) : M (option error) :=
  let '(shouldOverride, currentUUID) :=
    match systemInfo with
    | Some info => (isInvalidUUID (UUID info), UUID info)
    | None => (true, "not-available-yet")
    end in
  if shouldOverride && (0 <? linodeID) then
    let generatedUUID := generateLinodeUUID linodeID in
    let uuidKey := MetaKey UUIDOverrideID {| Value := generatedUUID |} in
    res ← StateCreate uuidKey;
    match res with
    | Some err =>
        if negb (IsConflictError err)
        then ret (Some (Errorf createOverrideFailed [currentUUID] err))
        else ret None
    | None => ret None
    end
  else ret None.

(** Middle part of the function: the read of the current SMBIOS UUID. A
    failed read leaves [systemInfo] nil. *)
Definition checkSystemInformation `{ResourceIDs} (linodeID : Z) : M (option error) :=
  got ← ReaderGetByID_SystemInformation SystemInformationID;
  match got with
  | Err err =>
      if negb (IsNotFoundError err)
      then ret (Some (Errorf getSystemInformationFailed [] err))
      else overrideIfNeeded None linodeID
  | OK systemInfo => overrideIfNeeded (Some systemInfo) linodeID
  end.

(** ensureValidUUID checks if SMBIOS UUID is valid and sets override if
    needed. The result is [None] for a nil error. *)
Definition ensureValidUUID `{ResourceIDs} (linodeID : Z) : M (option error) :=
  got ← ReaderGetByID_MetaKey UUIDOverrideID;
  let alreadySet :=
    match got with
    | OK uuidOverride => negb (String.eqb (Value uuidOverride) "")
    | Err _ => false
    end in
  if alreadySet then ret None else checkSystemInformation linodeID.

(** The parts of a run: the returned error, the store left behind, and the
    log of requests. *)
Definition errOf {A : Type} (r : A * Store * Log) : A := r.1.1.
Definition storeOf {A : Type} (r : A * Store * Log) : Store := r.1.2.
Definition logOf {A : Type} (r : A * Store * Log) : Log := r.2.

(** The mutating requests of a log. *)
Definition isWrite (req : Request) : bool :=
  match req with
  | Get _ _ => false
  | _ => true
  end.

Definition writes (log : Log) : list Request := List.filter isWrite (map fst log).

(** ** The paths through ensureValidUUID *)

Section Paths.
Context `{ResourceIDs}.

(** The three requests the function can issue. *)
Definition readOverride : Request := Get MetaKeyType UUIDOverrideID.

Definition readSystemInformation : Request :=
  Get SystemInformationType SystemInformationID.

Definition createOverride (linodeID : Z) : Request :=
  Create (MetaKey UUIDOverrideID {| Value := generateLinodeUUID linodeID |}).

(** Responses to the override read after which the function goes on: an
    override with an empty value, or any failure of the read. *)
Variant NoOverrideSeen : Response -> Prop :=
| OverrideEmpty (spec : MetaKeySpec) :
    Value spec = "" -> NoOverrideSeen (Found (MetaKey UUIDOverrideID spec))
| OverrideReadFailed (err : error) : NoOverrideSeen (Failed err).

(** Responses to the system-information read after which the function
    goes on, with the values of [shouldOverride] and [currentUUID]. *)
Variant Observed : Response -> bool -> string -> Prop :=
| ObservedUUID (info : SystemInformationSpec) :
    Observed (Found (SystemInformation SystemInformationID info))
      (isInvalidUUID (UUID info)) (UUID info)
| ObservedNothing (err : error) :
    IsNotFoundError err = true ->
    Observed (Failed err) true "not-available-yet".

(** One constructor per return path, giving the result, the store and the
    log of that path. *)
Variant Run (linodeID : Z) (env : Env) (st : Store) : option error * Store * Log -> Prop :=
| RunAlreadySet (spec : MetaKeySpec) :
    answer env st readOverride = Found (MetaKey UUIDOverrideID spec) ->
    Value spec <> "" ->
    Run linodeID env st
      (None, st, [(readOverride, Found (MetaKey UUIDOverrideID spec))])
| RunReadFailed (r1 : Response) (err : error) :
    answer env st readOverride = r1 -> NoOverrideSeen r1 ->
    answer env st readSystemInformation = Failed err ->
    IsNotFoundError err = false ->
    Run linodeID env st
      (Some (Errorf getSystemInformationFailed [] err), st,
       [(readOverride, r1); (readSystemInformation, Failed err)])
| RunNothingToDo (r1 r2 : Response) (shouldOverride : bool) (currentUUID : string) :
    answer env st readOverride = r1 -> NoOverrideSeen r1 ->
    answer env st readSystemInformation = r2 ->
    Observed r2 shouldOverride currentUUID ->
    shouldOverride && (0 <? linodeID) = false ->
    Run linodeID env st
      (None, st, [(readOverride, r1); (readSystemInformation, r2)])
| RunCreated (r1 r2 : Response) (currentUUID : string) :
    answer env st readOverride = r1 -> NoOverrideSeen r1 ->
    answer env st readSystemInformation = r2 ->
    Observed r2 true currentUUID ->
    0 < linodeID ->
    answer env st (createOverride linodeID) = Done ->
    MetaKeys st !! UUIDOverrideID = None ->
    Run linodeID env st
      (None,
       putResource st (MetaKey UUIDOverrideID {| Value := generateLinodeUUID linodeID |}),
       [(readOverride, r1); (readSystemInformation, r2);
        (createOverride linodeID, Done)])
| RunCreateFailed (r1 r2 : Response) (currentUUID : string) (err : error) :
    answer env st readOverride = r1 -> NoOverrideSeen r1 ->
    answer env st readSystemInformation = r2 ->
    Observed r2 true currentUUID ->
    0 < linodeID ->
    answer env st (createOverride linodeID) = Failed err ->
    Run linodeID env st
      (if IsConflictError err then None
       else Some (Errorf createOverrideFailed [currentUUID] err),
       st,
       [(readOverride, r1); (readSystemInformation, r2);
        (createOverride linodeID, Failed err)]).

(** A run that comes after [entries] were logged. *)
Definition prepend {A : Type} (entries : Log) (r : A * Store * Log) : A * Store * Log :=
  let '(a, st, log) := r in (a, st, (entries ++ log)%list).

(** The reading "every read that fails with an error other than not-found
    makes the function return that error, wrapped": stated for all reads
    of a run. *)
Definition read_failure_returned (linodeID : Z) (env : Env) (st : Store) : Prop :=
  let r := ensureValidUUID linodeID env st in
  forall (req : Request) (err : error),
    In (req, Failed err) (logOf r) -> isWrite req = false ->
    IsNotFoundError err = false ->
    exists format args, errOf r = Some (Errorf format args err).

(** The reading "with a non-empty override in the store, any call returns
    success without attempting any write and leaves the stored value as it
    was", at one call. *)
Definition write_once_always (linodeID : Z) (env : Env) (st : Store) : Prop :=
  let r := ensureValidUUID linodeID env st in
  forall spec : MetaKeySpec,
    MetaKeys st !! UUIDOverrideID = Some spec -> Value spec <> "" ->
    errOf r = None /\ writes (logOf r) = [] /\
    MetaKeys (storeOf r) !! UUIDOverrideID = Some spec.

(** The reading "with a non-positive ID, any call creates no override,
    returns success and leaves the store unchanged", at one call. *)
Definition nonpositive_id_always (linodeID : Z) (env : Env) (st : Store) : Prop :=
  let r := ensureValidUUID linodeID env st in
  linodeID <= 0 ->
  writes (logOf r) = [] /\ errOf r = None /\ storeOf r = st.
End Paths.

(** ** Network types

    [net/netip] values as data. The zero [Addr] is the invalid address; a
    [Prefix] is an address and a length in bits, [-1] when invalid. *)

Inductive Addr : Type :=
| AddrInvalid
| Addr4 (a b c d : Z)
| Addr6 (groups : list Z) (zone : string).

Record Prefix : Type := { ip : Addr; bits : Z }.

(** [Prefix.Addr] *)
Definition Prefix_Addr (p : Prefix) : Addr := ip p.

(** The textual side of [net/netip], which is not part of this package:
    [Addr.String], [Prefix.String] and [netip.ParseAddr]. The translation is
    stated for any implementation; [NetipText_model] below is one. *)
Class NetipText : Type := {
  Addr_String : Addr -> string;
  Prefix_String : Prefix -> string;
  ParseAddr : string -> Result Addr
}.

(** Modelled from the spec: the enumerations of [nethelpers] and [network]
    are declared outside this package. The translation names a configuration
    layer ("platform"), scopes ("global", "link"), address flags
    ("permanent", and [AddressManagementTemp] for the "temporary/privacy"
    one), families, the "main" table, the "static" protocol and the
    "unicast" type; only the identity of these constants matters here. *)
Inductive ConfigLayer : Type :=
| ConfigDefault | ConfigCmdline | ConfigPlatform | ConfigOperator | ConfigMachineConfiguration.

Inductive Scope : Type :=
| ScopeGlobal | ScopeSite | ScopeLink | ScopeHost | ScopeNowhere.

Inductive AddressFlag : Type :=
| AddressTemporary | AddressNoDAD | AddressOptimistic | AddressDADFailed
| AddressHome | AddressDeprecated | AddressTentative | AddressPermanent
| AddressManagementTemp | AddressNoPrefixRoute | AddressMCAutoJoin
| AddressStablePrivacy.

(** [nethelpers.AddressFlags] is a bit set of flags; the zero value is the
    empty set, and the conversion of one flag gives the singleton. *)
Definition AddressFlags : Type := list AddressFlag.

Definition AddressFlag_eqb (x y : AddressFlag) : bool :=
  match x, y with
  | AddressTemporary, AddressTemporary | AddressNoDAD, AddressNoDAD
  | AddressOptimistic, AddressOptimistic | AddressDADFailed, AddressDADFailed
  | AddressHome, AddressHome | AddressDeprecated, AddressDeprecated
  | AddressTentative, AddressTentative | AddressPermanent, AddressPermanent
  | AddressManagementTemp, AddressManagementTemp
  | AddressNoPrefixRoute, AddressNoPrefixRoute
  | AddressMCAutoJoin, AddressMCAutoJoin
  | AddressStablePrivacy, AddressStablePrivacy => true
  | _, _ => false
  end.

Definition hasFlag (flags : AddressFlags) (flag : AddressFlag) : bool :=
  existsb (AddressFlag_eqb flag) flags.

Inductive Family : Type := FamilyInet4 | FamilyInet6.

Inductive RoutingTable : Type := TableUnspec | TableDefault | TableMain | TableLocal.

Inductive RouteProtocol : Type :=
| ProtocolUnspec | ProtocolRedirect | ProtocolKernel | ProtocolBoot | ProtocolStatic.

Inductive RouteType : Type :=
| TypeUnspec | TypeUnicast | TypeLocal | TypeBroadcast | TypeAnycast | TypeMulticast.

(** Modelled from the spec: the structs of [network] and [runtime] are
    declared outside this package. They carry the fields of the spec's data
    model, which are the fields this package sets; every other field keeps
    its zero value. *)
Module HostnameSpecSpec.
Record t : Type := {
  Hostname : string;
  Domainname : string;
  ConfigLayer : ConfigLayer
}.
End HostnameSpecSpec.

Module AddressSpecSpec.
Record t : Type := {
  ConfigLayer : ConfigLayer;
  LinkName : string;
  Address : Prefix;
  Scope : Scope;
  Flags : AddressFlags;
  Family : Family
}.
End AddressSpecSpec.

Module RouteSpecSpec.
Record t : Type := {
  ConfigLayer : ConfigLayer;
  Gateway : Addr;
  OutLinkName : string;
  Destination : Prefix;
  Table : RoutingTable;
  Protocol : RouteProtocol;
  RouteType : RouteType;
  Family : Family;
  Priority : Z
}.
End RouteSpecSpec.

Module PlatformMetadataSpec.
Record t : Type := {
  Platform : string;
  Hostname : string;
  Region : string;
  InstanceType : string;
  InstanceID : string;
  ProviderID : string
}.
End PlatformMetadataSpec.

(** [runtime.PlatformNetworkConfig] *)
Module PlatformNetworkConfig.
Record t : Type := {
  Addresses : list AddressSpecSpec.t;
  Routes : list RouteSpecSpec.t;
  Hostnames : list HostnameSpecSpec.t;
  ExternalIPs : list Addr;
  Metadata : option PlatformMetadataSpec.t
}.
End PlatformNetworkConfig.

(** [akametadata.InstanceData] *)
Module InstanceData.
Record t : Type := {
  ID : Z;
  Label : string;
  Region : string;
  InstanceType : string
}.
End InstanceData.

(** [akametadata.NetworkData] *)
Module IPv4Data.
Record t : Type := { Public : list Prefix; Private : list Prefix }.
End IPv4Data.

Module IPv6Data.
Record t : Type := { Ranges : list Prefix; LinkLocal : Prefix }.
End IPv6Data.

Module NetworkData.
Record t : Type := { IPv4 : IPv4Data.t; IPv6 : IPv6Data.t }.
End NetworkData.

(** The two methods of [network] that the translation calls and that are
    declared outside this package: [HostnameSpecSpec.ParseFQDN], which
    fills the receiver and may fail, and [RouteSpecSpec.Normalize], whose
    returned family is dropped by the caller. *)
Class Machinery : Type := {
  ParseFQDN : HostnameSpecSpec.t -> string -> HostnameSpecSpec.t * option error;
  Normalize : RouteSpecSpec.t -> RouteSpecSpec.t
}.

(** [strings.Split(s, sep)] for a one-byte separator: the segments between
    the occurrences of [sep], never an empty list. *)
Fixpoint Split (s : string) (sep : ascii) : list string :=
  match s with
  | EmptyString => [""]
  | String c rest =>
      if Ascii.eqb c sep then "" :: Split rest sep
      else match Split rest sep with
           | seg :: segs => String c seg :: segs
           | [] => [String c ""]
           end
  end.

(** [strings.Join(segs, sep)], the inverse of [Split]. *)
Fixpoint Join (segs : list string) (sep : ascii) : string :=
  match segs with
  | [] => ""
  | [seg] => seg
  | seg :: rest => seg ++ String sep (Join rest sep)
  end.

Definition contains (s : string) (c : ascii) : bool :=
  existsb (Ascii.eqb c) (list_ascii_of_string s).

(** ** ParseMetadata *)

Section ParseMetadata.
Context `{NetipText} `{Machinery}.

(** Body of the loop over [IPv4.Public] and of the loop over [IPv4.Private]. *)
Definition ipv4Address (iface : Prefix) : AddressSpecSpec.t :=
  {| AddressSpecSpec.ConfigLayer := ConfigPlatform;
     AddressSpecSpec.LinkName := "eth0";
     AddressSpecSpec.Address := iface;
     AddressSpecSpec.Scope := ScopeGlobal;
     AddressSpecSpec.Flags := [AddressPermanent];
     AddressSpecSpec.Family := FamilyInet4 |}.

(** Body of the loop over [IPv6.Ranges]. *)
Definition ipv6RangeAddress (iface : Prefix) : AddressSpecSpec.t :=
  {| AddressSpecSpec.ConfigLayer := ConfigPlatform;
     AddressSpecSpec.LinkName := "eth0";
     AddressSpecSpec.Address := iface;
     AddressSpecSpec.Scope := ScopeGlobal;
     AddressSpecSpec.Flags := [AddressManagementTemp];
     AddressSpecSpec.Family := FamilyInet6 |}.

Definition linkLocalAddress (linkLocal : Prefix) : AddressSpecSpec.t :=
  {| AddressSpecSpec.ConfigLayer := ConfigPlatform;
     AddressSpecSpec.LinkName := "eth0";
     AddressSpecSpec.Address := linkLocal;
     AddressSpecSpec.Scope := ScopeLink;
     AddressSpecSpec.Flags := [];
     AddressSpecSpec.Family := FamilyInet6 |}.

(** The argument of [netip.ParseAddr] for the gateway. *)
Definition gatewayText (linkLocal : Prefix) : string :=
  match Split (Prefix_String linkLocal) ":" with
  | first :: _ => first ++ "::1"
  | [] => "::1"
  end.

Definition defaultRoute (ipv6gw : Addr) (linkLocal : Prefix) : RouteSpecSpec.t :=
  {| RouteSpecSpec.ConfigLayer := ConfigPlatform;
     RouteSpecSpec.Gateway := ipv6gw;
     RouteSpecSpec.OutLinkName := "eth0";
     RouteSpecSpec.Destination := linkLocal;
     RouteSpecSpec.Table := TableMain;
     RouteSpecSpec.Protocol := ProtocolStatic;
     RouteSpecSpec.RouteType := TypeUnicast;
     RouteSpecSpec.Family := FamilyInet6;
     RouteSpecSpec.Priority := 1024 |}.

(** The state the three address loops update: [publicIPs] and
    [networkConfig.Addresses]. *)
Definition Collected : Type := list string * list AddressSpecSpec.t.

Definition publicStep (acc : Collected) (iface : Prefix) : Collected :=
  ((acc.1 ++ [Addr_String (Prefix_Addr iface)])%list,
   (acc.2 ++ [ipv4Address iface])%list).

Definition privateStep (acc : Collected) (iface : Prefix) : Collected :=
  (acc.1, (acc.2 ++ [ipv4Address iface])%list).

Definition rangeStep (acc : Collected) (iface : Prefix) : Collected :=
  ((acc.1 ++ [Addr_String (Prefix_Addr iface)])%list,
   (acc.2 ++ [ipv6RangeAddress iface])%list).

(** The last loop: a string that does not parse is skipped. *)
Definition externalStep (ips : list Addr) (ipStr : string) : list Addr :=
  match ParseAddr ipStr with
  | OK ip => (ips ++ [ip])%list
  | Err _ => ips
  end.

(** The hostname part: no entry for an empty label, one entry or the
    error of [ParseFQDN] otherwise. *)
Definition parseHostname (label : string) : Result (list HostnameSpecSpec.t) :=
  if negb (String.eqb label "") then
    let hostnameSpec :=
      {| HostnameSpecSpec.Hostname := "";
         HostnameSpecSpec.Domainname := "";
         HostnameSpecSpec.ConfigLayer := ConfigPlatform |} in
    match ParseFQDN hostnameSpec label with
    | (_, Some err) => Err err
    | (hostnameSpec', None) => OK [hostnameSpec']
    end
  else OK [].

(** ParseMetadata converts Akamai platform metadata into platform network
    config. *)
Definition ParseMetadata (metadata : InstanceData.t) (interfaceAddresses : NetworkData.t)
    : Result PlatformNetworkConfig.t :=
  match parseHostname (InstanceData.Label metadata) with
  | Err err => Err err
  | OK hostnames =>
      let ipv4 := NetworkData.IPv4 interfaceAddresses in
      let ipv6 := NetworkData.IPv6 interfaceAddresses in
      let acc := fold_left publicStep (IPv4Data.Public ipv4) ([], []) in
      let acc := fold_left privateStep (IPv4Data.Private ipv4) acc in
      let acc := fold_left rangeStep (IPv6Data.Ranges ipv6) acc in
      let publicIPs := acc.1 in
      let addresses := (acc.2 ++ [linkLocalAddress (IPv6Data.LinkLocal ipv6)])%list in
      match ParseAddr (gatewayText (IPv6Data.LinkLocal ipv6)) with
      | Err err => Err err
      | OK ipv6gw =>
          let route := Normalize (defaultRoute ipv6gw (IPv6Data.LinkLocal ipv6)) in
          OK {| PlatformNetworkConfig.Addresses := addresses;
                PlatformNetworkConfig.Routes := [route];
                PlatformNetworkConfig.Hostnames := hostnames;
                PlatformNetworkConfig.ExternalIPs := fold_left externalStep publicIPs [];
                PlatformNetworkConfig.Metadata :=
                  Some {| PlatformMetadataSpec.Platform := "akamai";
                          PlatformMetadataSpec.Hostname := InstanceData.Label metadata;
                          PlatformMetadataSpec.Region := InstanceData.Region metadata;
                          PlatformMetadataSpec.InstanceType := InstanceData.InstanceType metadata;
                          PlatformMetadataSpec.InstanceID := Itoa (InstanceData.ID metadata);
                          PlatformMetadataSpec.ProviderID :=
                            "linode://" ++ Itoa (InstanceData.ID metadata) |} |}
      end
  end.
End ParseMetadata.

(** ** The translation in the spec's words *)

Section TranslationSpec.
Context `{NetipText} `{Machinery}.

(** An address entry of the platform layer on the primary link. *)
Definition addressEntry (scope : Scope) (flags : AddressFlags) (family : Family)
    (prefix : Prefix) : AddressSpecSpec.t :=
  {| AddressSpecSpec.ConfigLayer := ConfigPlatform;
     AddressSpecSpec.LinkName := "eth0";
     AddressSpecSpec.Address := prefix;
     AddressSpecSpec.Scope := scope;
     AddressSpecSpec.Flags := flags;
     AddressSpecSpec.Family := family |}.

(** The text of the bare address of a prefix, without the length. *)
Definition textOf (prefix : Prefix) : string := Addr_String (Prefix_Addr prefix).

(** The bare address of a prefix, re-parsed from its text; nothing when
    the text does not parse. *)
Definition bareAddress (prefix : Prefix) : list Addr :=
  match ParseAddr (textOf prefix) with
  | OK ip => [ip]
  | Err _ => []
  end.

(** The hostname step lets the translation go on: the label is empty or
    [ParseFQDN] accepts it. *)
Definition labelAccepted (metadata : InstanceData.t) : Prop :=
  InstanceData.Label metadata = "" \/
  (ParseFQDN {| HostnameSpecSpec.Hostname := "";
                HostnameSpecSpec.Domainname := "";
                HostnameSpecSpec.ConfigLayer := ConfigPlatform |}
             (InstanceData.Label metadata)).2 = None.

(** The reading "whenever the derived gateway text parses, the
    translation emits the route", at one input. *)
Definition route_emitted (metadata : InstanceData.t) (interfaceAddresses : NetworkData.t) : Prop :=
  let linkLocal := IPv6Data.LinkLocal (NetworkData.IPv6 interfaceAddresses) in
  forall ipv6gw : Addr,
    ParseAddr (gatewayText linkLocal) = OK ipv6gw ->
    exists cfg,
      ParseMetadata metadata interfaceAddresses = OK cfg /\
      PlatformNetworkConfig.Routes cfg = [Normalize (defaultRoute ipv6gw linkLocal)].
End TranslationSpec.

Definition Scope_eqb (x y : Scope) : bool :=
  match x, y with
  | ScopeGlobal, ScopeGlobal | ScopeSite, ScopeSite | ScopeLink, ScopeLink
  | ScopeHost, ScopeHost | ScopeNowhere, ScopeNowhere => true
  | _, _ => false
  end.

(** ** A model of the textual side of [net/netip]

    Used for the examples and scenarios; the theorems about [ParseMetadata]
    hold for any [NetipText]. *)
Module NetipModel.

Definition hexDigit (d : Z) : ascii :=
  if d <? 10 then ascii_of_nat (48 + Z.to_nat d) else ascii_of_nat (87 + Z.to_nat d).

(** [appendHex]: lower-case hexadecimal without leading zeros. *)
Definition appendHex (x : Z) : string :=
  (if 4096 <=? x then String (hexDigit (Z.land (Z.shiftr x 12) 15)) "" else "") ++
  (if 256 <=? x then String (hexDigit (Z.land (Z.shiftr x 8) 15)) "" else "") ++
  (if 16 <=? x then String (hexDigit (Z.land (Z.shiftr x 4) 15)) "" else "") ++
  String (hexDigit (Z.land x 15)) "".

Definition string4 (a b c d : Z) : string :=
  Itoa a ++ "." ++ Itoa b ++ "." ++ Itoa c ++ "." ++ Itoa d.

Fixpoint leadingZeros (gs : list Z) : Z :=
  match gs with
  | 0 :: rest => 1 + leadingZeros rest
  | _ => 0
  end.

(** The first longest run of at least two zero groups, as (start, end);
    (255, 255) when there is none. *)
Fixpoint findZeroRun (suffix : list Z) (i : Z) (best : Z * Z) : Z * Z :=
  match suffix with
  | [] => best
  | _ :: rest =>
      let l := leadingZeros suffix in
      let best' := if (2 <=? l) && (best.2 - best.1 <? l) then (i, i + l) else best in
      findZeroRun rest (i + 1) best'
  end.

Definition group (gs : list Z) (i : Z) : Z := nth (Z.to_nat i) gs 0.

Fixpoint write6 (fuel : nat) (gs : list Z) (i : Z) (run : Z * Z) : string :=
  match fuel with
  | O => ""
  | S fuel' =>
      if 8 <=? i then ""
      else if i =? run.1 then
        "::" ++ (if 8 <=? run.2 then ""
                 else appendHex (group gs run.2) ++ write6 fuel' gs (run.2 + 1) run)
      else (if 0 <? i then ":" else "") ++ appendHex (group gs i) ++ write6 fuel' gs (i + 1) run
  end.

Definition zoneSuffix (zone : string) : string :=
  if String.eqb zone "" then "" else "%" ++ zone.

(** [Addr.String] *)
Definition Addr_String (a : Addr) : string :=
  match a with
  | AddrInvalid => "invalid IP"
  | Addr4 a b c d => string4 a b c d
  | Addr6 [0; 0; 0; 0; 0; 65535; hi; lo] zone =>
      "::ffff:" ++ string4 (Z.shiftr hi 8) (Z.land hi 255) (Z.shiftr lo 8) (Z.land lo 255)
                ++ zoneSuffix zone
  | Addr6 gs zone => write6 9 gs 0 (findZeroRun gs 0 (255, 255)) ++ zoneSuffix zone
  end.

(** [Prefix.String] *)
Definition Prefix_String (p : Prefix) : string :=
  match ip p with
  | AddrInvalid => "invalid Prefix"
  | _ => if bits p <? 0 then "invalid Prefix" else Addr_String (ip p) ++ "/" ++ Itoa (bits p)
  end.

Definition hexValue (c : ascii) : option Z :=
  let n := Z.of_nat (nat_of_ascii c) in
  if (48 <=? n) && (n <=? 57) then Some (n - 48)
  else if (97 <=? n) && (n <=? 102) then Some (n - 87)
  else if (65 <=? n) && (n <=? 70) then Some (n - 55)
  else None.

(** One octet: digits only, no leading zero, at most 255. *)
Definition parseOctet (s : string) : option Z :=
  match s with
  | EmptyString => None
  | String "0" (String _ _) => None
  | _ => match parseDecimal s 0 with
         | Some v => if v <=? 255 then Some v else None
         | None => None
         end
  end.

Definition parseIPv4Fields (s : string) : option (Z * Z * Z * Z) :=
  match Split s "." with
  | [a; b; c; d] =>
      match parseOctet a, parseOctet b, parseOctet c, parseOctet d with
      | Some a, Some b, Some c, Some d => Some (a, b, c, d)
      | _, _, _, _ => None
      end
  | _ => None
  end.

Fixpoint parseHex (s : string) (acc : Z) : option Z :=
  match s with
  | EmptyString => Some acc
  | String c rest =>
      match hexValue c with
      | Some v => parseHex rest (acc * 16 + v)
      | None => None
      end
  end.

(** One colon-separated field: one to four hexadecimal digits. *)
Definition parseGroup (s : string) : option Z :=
  if (String.length s =? 0)%nat || (4 <? String.length s)%nat then None else parseHex s 0.

Definition hasDot (s : string) : bool :=
  existsb (Ascii.eqb ".") (list_ascii_of_string s).

(** The fields of one side of the address; the last one may be an embedded
    IPv4 address when [last] is set. *)
Fixpoint parseGroups (fields : list string) (last : bool) : option (list Z) :=
  match fields with
  | [] => Some []
  | [f] =>
      if last && hasDot f then
        match parseIPv4Fields f with
        | Some (a, b, c, d) => Some [a * 256 + b; c * 256 + d]
        | None => None
        end
      else (fun g => [g]) <$> parseGroup f
  | f :: rest =>
      match parseGroup f, parseGroups rest last with
      | Some g, Some gs => Some (g :: gs)
      | _, _ => None
      end
  end.

Definition fieldsOf (s : string) : list string :=
  if String.eqb s "" then [] else Split s ":".

(** The text before and after the first [::], if there is one. *)
Fixpoint splitEllipsis (s : string) : option (string * string) :=
  match s with
  | String ":" (String ":" rest) => Some ("", rest)
  | String c rest =>
      match splitEllipsis rest with
      | Some (l, r) => Some (String c l, r)
      | None => None
      end
  | EmptyString => None
  end.

Definition splitZone (s : string) : option (string * string) :=
  match Split s "%" with
  | [s'] => Some (s', "")
  | s' :: zone :: more =>
      let zone := fold_left (fun z m => z ++ "%" ++ m) more zone in
      if String.eqb zone "" then None else Some (s', zone)
  | [] => None
  end.

Definition parseIPv6 (s : string) : option Addr :=
  match splitZone s with
  | None => None
  | Some (s, zone) =>
      match splitEllipsis s with
      | None =>
          match parseGroups (fieldsOf s) true with
          | Some gs => if (length gs =? 8)%nat then Some (Addr6 gs zone) else None
          | None => None
          end
      | Some (l, r) =>
          match parseGroups (fieldsOf l) false, parseGroups (fieldsOf r) true with
          | Some ls, Some rs =>
              let n := (length ls + length rs)%nat in
              if (n <? 8)%nat then Some (Addr6 (ls ++ repeat 0 (8 - n) ++ rs)%list zone)
              else None
          | _, _ => None
          end
      end
  end.

Definition parseIPv4 (s : string) : option Addr :=
  match parseIPv4Fields s with
  | Some (a, b, c, d) => Some (Addr4 a b c d)
  | None => None
  end.

(** The first of [.], [:] and [%] in the text decides the syntax. *)
Fixpoint firstMark (s : string) : option ascii :=
  match s with
  | EmptyString => None
  | String c rest =>
      if Ascii.eqb c "." || Ascii.eqb c ":" || Ascii.eqb c "%" then Some c
      else firstMark rest
  end.

(** The error of a failed parse. Only that it is an error is taken from
    [netip]; the message of [netip]'s error is not modelled, and no
    statement below depends on this text. *)
Definition parseAddrError (s : string) : error :=
  ErrOther ("ParseAddr: unable to parse IP: " ++ s).

(** [netip.ParseAddr] *)
Definition ParseAddr (s : string) : Result Addr :=
  let parsed :=
    match firstMark s with
    | Some "."%char => parseIPv4 s
    | Some ":"%char => parseIPv6 s
    | _ => None
    end in
  match parsed with
  | Some a => OK a
  | None => Err (parseAddrError s)
  end.

End NetipModel.

Definition NetipText_model : NetipText := {|
  Addr_String := NetipModel.Addr_String;
  Prefix_String := NetipModel.Prefix_String;
  ParseAddr := NetipModel.ParseAddr
|}.

(** ** Models of the missing [network] methods and resource IDs

    Used for the examples and scenarios only. *)

(** The text before and after the first dot ([strings.SplitN(fqdn, ".", 2)]). *)
Fixpoint splitFirstDot (s : string) : string * string :=
  match s with
  | EmptyString => ("", "")
  | String c rest =>
      if Ascii.eqb c "." then ("", rest)
      else let '(host, domain) := splitFirstDot rest in (String c host, domain)
  end.

(** Modelled from the spec: [HostnameSpecSpec.ParseFQDN] is not in this
    package. The label is parsed "as a fully-qualified domain name", and "a
    malformed label is a fatal translation error". The model takes the text
    up to the first dot as the host name, the rest as the domain, and
    rejects a host name that is empty or longer than 63 bytes. *)
Definition ParseFQDN_model (hostnameSpec : HostnameSpecSpec.t) (fqdn : string)
    : HostnameSpecSpec.t * option error :=
  let '(host, domain) := splitFirstDot fqdn in
  let hostnameSpec' :=
    {| HostnameSpecSpec.Hostname := host;
       HostnameSpecSpec.Domainname := domain;
       HostnameSpecSpec.ConfigLayer := HostnameSpecSpec.ConfigLayer hostnameSpec |} in
  (hostnameSpec',
   if String.eqb host "" then Some (ErrOther "hostname is empty")
   else if (63 <? String.length host)%nat then Some (ErrOther "hostname is too long")
   else None).

Definition isUnspecified (a : Addr) : bool :=
  match a with
  | Addr4 0 0 0 0 => true
  | Addr6 gs _ => forallb (Z.eqb 0) gs
  | _ => false
  end.

(** Modelled from the spec: [RouteSpecSpec.Normalize] is not in this
    package; the route "must be run through the store's route-normalization
    step before being added". The model canonicalises the two fields that
    have a zero form: a destination of length zero becomes the zero prefix,
    an unspecified gateway the zero address. *)
Definition Normalize_model (route : RouteSpecSpec.t) : RouteSpecSpec.t :=
  {| RouteSpecSpec.ConfigLayer := RouteSpecSpec.ConfigLayer route;
     RouteSpecSpec.Gateway :=
       if isUnspecified (RouteSpecSpec.Gateway route) then AddrInvalid
       else RouteSpecSpec.Gateway route;
     RouteSpecSpec.OutLinkName := RouteSpecSpec.OutLinkName route;
     RouteSpecSpec.Destination :=
       if bits (RouteSpecSpec.Destination route) <=? 0
       then {| ip := AddrInvalid; bits := -1 |}
       else RouteSpecSpec.Destination route;
     RouteSpecSpec.Table := RouteSpecSpec.Table route;
     RouteSpecSpec.Protocol := RouteSpecSpec.Protocol route;
     RouteSpecSpec.RouteType := RouteSpecSpec.RouteType route;
     RouteSpecSpec.Family := RouteSpecSpec.Family route;
     RouteSpecSpec.Priority := RouteSpecSpec.Priority route |}.

Definition Machinery_model : Machinery := {|
  ParseFQDN := ParseFQDN_model;
  Normalize := Normalize_model
|}.

(** Modelled from the spec: the override is "stored in the external
    resource store under a well-known key"; the IDs are declared outside this
    package. For the scenarios: the tag of the UUID override as a two-digit
    hexadecimal ID, and the ID of the system information. *)
Definition ResourceIDs_model : ResourceIDs := {|
  UUIDOverrideID := "0x0e";
  SystemInformationID := "systeminformation"
|}.

(** ** Scenarios

    Stores and environments for the examples, with the IDs of
    [ResourceIDs_model]. *)

Definition storeOfOptions (override systemUUID : option string) : Store :=
  {| MetaKeys :=
       match override with
       | Some v => {[ "0x0e" := {| Value := v |} ]}
       | None => ∅
       end;
     SystemInformations :=
       match systemUUID with
       | Some u => {[ "systeminformation" := {| UUID := u |} ]}
       | None => ∅
       end |}.

(** The environment that fails every read of a meta key with [err]. *)
Definition failMetaKeyReads (err : error) : Env :=
  fun req =>
    match req with
    | Get MetaKeyType _ => Some err
    | _ => None
    end.

(** The environment that fails every read of a system information. *)
Definition failSystemInformationReads (err : error) : Env :=
  fun req =>
    match req with
    | Get SystemInformationType _ => Some err
    | _ => None
    end.

(** The environment that fails every Create with [err]. *)
Definition failCreates (err : error) : Env :=
  fun req =>
    match req with
    | Create _ => Some err
    | _ => None
    end.

Definition deadlineExceeded : error := ErrOther "context deadline exceeded".

Definition linkLocal_fe80_1 : Prefix :=
  {| ip := Addr6 [65152; 0; 0; 0; 0; 0; 0; 1] ""; bits := 64 |}.

Definition range_2001_db8_1 : Prefix :=
  {| ip := Addr6 [8193; 3512; 0; 0; 0; 0; 0; 1] ""; bits := 64 |}.

Definition public_192_0_2_10 : Prefix := {| ip := Addr4 192 0 2 10; bits := 24 |}.

Definition private_10_0_0_5 : Prefix := {| ip := Addr4 10 0 0 5; bits := 17 |}.

Definition scenarioNetwork : NetworkData.t :=
  {| NetworkData.IPv4 :=
       {| IPv4Data.Public := [public_192_0_2_10];
          IPv4Data.Private := [private_10_0_0_5] |};
     NetworkData.IPv6 :=
       {| IPv6Data.Ranges := [range_2001_db8_1];
          IPv6Data.LinkLocal := linkLocal_fe80_1 |} |}.

(** The same network with the zero prefix among the public ones: the text
    of its address, [invalid IP], does not parse. *)
Definition zeroPrefix : Prefix := {| ip := AddrInvalid; bits := -1 |}.

Definition scenarioNetworkWithZero : NetworkData.t :=
  {| NetworkData.IPv4 :=
       {| IPv4Data.Public := [zeroPrefix; public_192_0_2_10];
          IPv4Data.Private := [private_10_0_0_5] |};
     NetworkData.IPv6 :=
       {| IPv6Data.Ranges := [range_2001_db8_1];
          IPv6Data.LinkLocal := linkLocal_fe80_1 |} |}.

Definition scenarioInstance (label : string) : InstanceData.t :=
  {| InstanceData.ID := 79475478;
     InstanceData.Label := label;
     InstanceData.Region := "us-east";
     InstanceData.InstanceType := "g6-standard-2" |}.

(** The receiver [ParseFQDN] is called on: a hostname spec of the platform
    layer with nothing else set. *)
Definition blankHostname : HostnameSpecSpec.t :=
  {| HostnameSpecSpec.Hostname := "";
     HostnameSpecSpec.Domainname := "";
     HostnameSpecSpec.ConfigLayer := ConfigPlatform |}.

(** ** Reading decimal text back *)

(** The integer that a signed decimal text denotes: an optional minus sign,
    then digits. It reads back what [Itoa] and [Sprintf_0d] write. *)
Definition readDecimal (s : string) : option Z :=
  match s with
  | String c rest =>
      if Ascii.eqb c "-" then Z.opp <$> parseDecimal rest 0 else parseDecimal s 0
  | EmptyString => None
  end.

(** ** Successive reconciliations *)

(** The store after a series of calls of ensureValidUUID, each with its own
    linodeID and its own environment (the function is called on every
    network-configuration cycle). *)
Fixpoint reconcileAll `{ResourceIDs} (calls : list (Z * Env)) (st : Store) : Store :=
  match calls with
  | [] => st
  | (linodeID, env) :: rest =>
      reconcileAll rest (storeOf (ensureValidUUID linodeID env st))
  end.

(** ** The platform methods around the two core functions *)

(** Name implements the platform.Platform interface. *)
Definition Name : string := "akamai".

(** What the external collaborators of one invocation do. The wait for
    network readiness, [netutils.Wait(ctx, r)], is handed the store: it is
    any computation against it, with an error or nil as its value. The
    metadata client ([akametadata.NewClient], [GetUserData], [GetInstance],
    [GetNetwork]) has no access to the store and answers with a value or an
    error. The hand-off [select] is [None] when the consumer took the config
    from the channel, [Some err] when the context was done first, [err]
    being [ctx.Err()]. *)
Record Collaborators : Type := {
  Wait : M (option error);
  NewClient : option error;
  GetUserData : Result string;
  GetInstance : Result InstanceData.t;
  GetNetwork : Result NetworkData.t;
  Handoff : option error
}.

(** [errors.ErrNoConfigSource] is declared outside this package. *)
Class PlatformErrors : Type := { ErrNoConfigSource : error }.

(** Configuration implements the platform.Platform interface. *)
Definition Configuration `{PlatformErrors} (c : Collaborators) : M (Result string) :=
  waited ← Wait c;
  match waited with
  | Some err => ret (Err err)
  | None =>
      match NewClient c with
      | Some err => ret (Err (Errorf "new metadata client: %w" [] err))
      | None =>
          match GetUserData c with
          | Err err => ret (Err (Errorf "get user data: %w" [] err))
          | OK userData =>
              if String.eqb userData "" then ret (Err ErrNoConfigSource)
              else ret (OK userData)
          end
      end
  end.

(** NetworkConfiguration implements the runtime.Platform interface. The
    value is the returned error together with the configs put on the
    channel. *)
Definition NetworkConfiguration `{ResourceIDs} `{NetipText} `{Machinery}
    (c : Collaborators) : M (option error * list PlatformNetworkConfig.t) :=
  waited ← Wait c;
  match waited with
  | Some err => ret (Some err, [])
  | None =>
      match NewClient c with
      | Some err => ret (Some (Errorf "new metadata client: %w" [] err), [])
      | None =>
          match GetInstance c with
          | Err err => ret (Some (Errorf "get instance data: %w" [] err), [])
          | OK metadata =>
              res ← ensureValidUUID (InstanceData.ID metadata);
              match res with
              | Some err => ret (Some (Errorf "failed to ensure valid UUID: %w" [] err), [])
              | None =>
                  match GetNetwork c with
                  | Err err => ret (Some (Errorf "get network data: %w" [] err), [])
                  | OK metadataNetworkConfig =>
                      match ParseMetadata metadata metadataNetworkConfig with
                      | Err err => ret (Some (Errorf "parse metadata: %w" [] err), [])
                      | OK networkConfig =>
                          match Handoff c with
                          | None => ret (None, [networkConfig])
                          | Some err => ret (Some err, [])
                          end
                      end
                  end
              end
          end
      end
  end.

(** A wait that looks the network status up in the store before it
    answers: here, one read of a meta key. *)
Definition waitReading (id : string) : M (option error) :=
  _ ← call (Get MetaKeyType id);
  ret None.

(** Collaborators for the scenarios: everything answers, the wait reads the
    store once, the user data is [userData], the instance is
    [scenarioInstance label]. *)
Definition scenarioCollaborators (label userData : string) (network : Result NetworkData.t)
    : Collaborators :=
  {| Wait := waitReading "network-status";
     NewClient := None;
     GetUserData := OK userData;
     GetInstance := OK (scenarioInstance label);
     GetNetwork := network;
     Handoff := None |}.

(** An error value standing for [errors.ErrNoConfigSource] in the
    scenarios. *)
Definition PlatformErrors_model : PlatformErrors :=
  {| ErrNoConfigSource := ErrOther "no config source" |}.

(** * Properties *)

(** ** Strings *)

Lemma append_cons (c : ascii) (s t : string) : String c s ++ t = String c (s ++ t).
Proof. reflexivity. Qed.

Lemma append_empty_l (t : string) : "" ++ t = t.
Proof. reflexivity. Qed.

Lemma length_append (s t : string) :
  String.length (s ++ t) = (String.length s + String.length t)%nat.
Proof.
  induction s as [|c s IH]; [reflexivity|].
  rewrite append_cons. simpl. now rewrite IH.
Qed.

Lemma append_assoc (s t u : string) : (s ++ t) ++ u = s ++ (t ++ u).
Proof.
  induction s as [|c s IH]; [reflexivity|].
  rewrite !append_cons. now rewrite IH.
Qed.

Lemma substring_all (s : string) : substring 0 (String.length s) s = s.
Proof. induction s as [|c s IH]; simpl; [reflexivity | now rewrite IH]. Qed.

Lemma zeros_length (n : nat) : String.length (zeros n) = n.
Proof. induction n as [|n IH]; simpl; [reflexivity | now rewrite IH]. Qed.

Lemma zeros_snoc (n : nat) : zeros n ++ "0" = zeros (S n).
Proof.
  induction n as [|n IH]; [reflexivity|].
  change (zeros (S n)) with (String "0" (zeros n)) at 1.
  rewrite append_cons, IH. reflexivity.
Qed.

(** ** Decimal formatting *)

Lemma zeroPadded_length (w : nat) (id : Z) : String.length (zeroPadded w id) = w.
Proof.
  revert id; induction w as [|w IH]; intros id; simpl; [reflexivity|].
  rewrite length_append, IH; simpl; lia.
Qed.

Lemma zeroPadded_0 (w : nat) : zeroPadded w 0 = zeros w.
Proof.
  induction w as [|w IH]; [reflexivity|].
  change (zeroPadded (S w) 0) with (zeroPadded w 0 ++ "0").
  now rewrite IH, zeros_snoc.
Qed.

(** The accumulator of the digit loop is a suffix of its result. *)
Lemma fmtDigits_acc (fuel : nat) (u : Z) (acc : string) :
  fmtDigits fuel u acc = fmtDigits fuel u "" ++ acc.
Proof.
  revert u acc; induction fuel as [|fuel IH]; intros u acc; simpl.
  - destruct (u <? 10); reflexivity.
  - destruct (u <? 10); [reflexivity|].
    rewrite (IH (u / 10) (String (digitChar (u mod 10)) acc)).
    rewrite (IH (u / 10) (String (digitChar (u mod 10)) "")).
    rewrite append_assoc. reflexivity.
Qed.

(** With fuel for every digit, padding the digits of [u] to a width that
    holds them gives the positional digits of [u]. *)
Lemma padZeros_fmtDigits (w fuel : nat) (u : Z) :
  0 <= u < 10 ^ Z.of_nat (S w) ->
  u < 10 ^ Z.of_nat (S fuel) ->
  padZeros (S w) (fmtDigits fuel u "") = zeroPadded (S w) u.
Proof.
  revert fuel u; induction w as [|w IH]; intros fuel u Hw Hfuel.
  - change (10 ^ Z.of_nat 1) with 10 in Hw.
    destruct fuel; simpl; destruct (Z.ltb_spec u 10); try lia;
      rewrite Z.mod_small by lia; reflexivity.
  - destruct (Z.ltb_spec u 10) as [Hlt|Hge].
    + assert (E : fmtDigits fuel u "" = String (digitChar u) "").
      { destruct fuel; simpl; destruct (Z.ltb_spec u 10); try lia; reflexivity. }
      rewrite E. change (zeroPadded (S (S w)) u)
        with (zeroPadded (S w) (u / 10) ++ String (digitChar (u mod 10)) "").
      rewrite Z.div_small, Z.mod_small, zeroPadded_0 by lia.
      unfold padZeros. simpl String.length.
      replace (S (S w) - 1)%nat with (S w) by lia. reflexivity.
    + destruct fuel as [|fuel].
      { change (10 ^ Z.of_nat 1) with 10 in Hfuel. lia. }
      assert (Hdiv : forall k : nat, u < 10 ^ Z.of_nat (S k) -> u / 10 < 10 ^ Z.of_nat k).
      { intros k Hk. apply Z.div_lt_upper_bound; [lia|].
        rewrite Nat2Z.inj_succ, Z.pow_succ_r in Hk by lia. exact Hk. }
      assert (Hpos : 0 <= u / 10) by (apply Z.div_pos; lia).
      change (zeroPadded (S (S w)) u)
        with (zeroPadded (S w) (u / 10) ++ String (digitChar (u mod 10)) "").
      rewrite <- (IH fuel (u / 10) (conj Hpos (Hdiv (S w) (proj2 Hw))) (Hdiv (S fuel) Hfuel)).
      simpl fmtDigits. destruct (Z.ltb_spec u 10); [lia|].
      rewrite fmtDigits_acc. unfold padZeros.
      rewrite length_append, append_assoc. simpl String.length.
      replace (S (S w) - (String.length (fmtDigits fuel (u / 10) "") + 1))%nat
        with (S w - String.length (fmtDigits fuel (u / 10) ""))%nat by lia.
      reflexivity.
Qed.

(** A number has no more decimal digits than bits. *)
Lemma fmtDigits_fuel (u : Z) : 0 <= u -> u < 10 ^ Z.of_nat (S (Z.to_nat (Z.log2 u))).
Proof.
  intros Hu. rewrite Nat2Z.inj_succ, Z2Nat.id by apply Z.log2_nonneg.
  destruct (Z.eq_dec u 0) as [->|Hne]; [reflexivity|].
  apply Z.lt_le_trans with (2 ^ Z.succ (Z.log2 u)).
  - apply Z.log2_spec; lia.
  - apply Z.pow_le_mono_l. lia.
Qed.

Lemma Sprintf_0d_zeroPadded (w : nat) (id : Z) :
  0 <= id < 10 ^ Z.of_nat (S w) -> Sprintf_0d (S w) id = zeroPadded (S w) id.
Proof.
  intros Hid. unfold Sprintf_0d. destruct (Z.ltb_spec id 0); [lia|].
  apply padZeros_fmtDigits; [exact Hid | apply fmtDigits_fuel; lia].
Qed.

Lemma digitChar_value (d : Z) :
  0 <= d < 10 ->
  isDigit (digitChar d) = true /\ Z.of_nat (nat_of_ascii (digitChar d)) - 48 = d.
Proof.
  intros Hd. unfold isDigit, digitChar.
  rewrite nat_ascii_embedding by lia.
  split; [apply andb_true_iff; split; apply Z.leb_le; lia | lia].
Qed.

Lemma parseDecimal_snoc (s : string) (c : ascii) (acc : Z) :
  parseDecimal (s ++ String c "") acc =
  match parseDecimal s acc with
  | Some v => if isDigit c then Some (v * 10 + (Z.of_nat (nat_of_ascii c) - 48)) else None
  | None => None
  end.
Proof.
  revert acc; induction s as [|c' s IH]; intros acc.
  - reflexivity.
  - rewrite append_cons. simpl. destruct (isDigit c'); [apply IH | reflexivity].
Qed.

(** The positional digits read back as the number they were taken from. *)
Lemma zeroPadded_value (w : nat) (id : Z) :
  0 <= id -> parseDecimal (zeroPadded w id) 0 = Some (id mod 10 ^ Z.of_nat w).
Proof.
  revert id; induction w as [|w IH]; intros id Hid.
  - simpl. now rewrite Z.mod_1_r.
  - change (zeroPadded (S w) id)
      with (zeroPadded w (id / 10) ++ String (digitChar (id mod 10)) "").
    rewrite parseDecimal_snoc, IH by (apply Z.div_pos; lia).
    destruct (digitChar_value (id mod 10)) as [-> ->]; [apply Z.mod_pos_bound; lia|].
    f_equal. rewrite Nat2Z.inj_succ, Z.pow_succ_r by lia.
    rewrite (Z.rem_mul_r id 10 (10 ^ Z.of_nat w)) by lia. lia.
Qed.

(** C6. For every integer [id] in [0, 10^12), [generateLinodeUUID id] is the
    fixed prefix [00000000-0000-0000-0000-] followed by [id] in decimal,
    zero-padded to 12 digits: it has length 36, dashes at offsets 8, 13, 18
    and 23, and its final 12 characters are the zero-padded [id], twelve
    decimal digits whose value is [id]. *)
Theorem generateLinodeUUID_format (id : Z) :
  0 <= id < 10 ^ 12 ->
  generateLinodeUUID id = "00000000-0000-0000-0000-" ++ zeroPadded 12 id /\
  String.length (generateLinodeUUID id) = 36%nat /\
  get 8 (generateLinodeUUID id) = Some "-"%char /\
  get 13 (generateLinodeUUID id) = Some "-"%char /\
  get 18 (generateLinodeUUID id) = Some "-"%char /\
  get 23 (generateLinodeUUID id) = Some "-"%char /\
  substring 24 12 (generateLinodeUUID id) = zeroPadded 12 id /\
  parseDecimal (substring 24 12 (generateLinodeUUID id)) 0 = Some id.
Proof.
  intros Hid.
  assert (E : generateLinodeUUID id = "00000000-0000-0000-0000-" ++ zeroPadded 12 id).
  { unfold generateLinodeUUID. now rewrite (Sprintf_0d_zeroPadded 11). }
  assert (L : substring 24 12 ("00000000-0000-0000-0000-" ++ zeroPadded 12 id)
              = zeroPadded 12 id).
  { change (substring 24 12 ("00000000-0000-0000-0000-" ++ zeroPadded 12 id))
      with (substring 0 12 (zeroPadded 12 id)).
    rewrite <- (zeroPadded_length 12 id) at 1. apply substring_all. }
  rewrite E. split; [reflexivity|].
  split; [rewrite length_append, zeroPadded_length; reflexivity|].
  do 4 (split; [reflexivity|]).
  split; [exact L|].
  rewrite L, zeroPadded_value by lia. f_equal. apply Z.mod_small. exact Hid.
Qed.

Lemma generateLinodeUUID_format_witness :
  0 <= 79475478 < 10 ^ 12 /\
  generateLinodeUUID 79475478 = "00000000-0000-0000-0000-000079475478" /\
  String.length (generateLinodeUUID 79475478) = 36%nat.
Proof.
  assert (H : 0 <= 79475478 < 10 ^ 12) by lia.
  split; [exact H|].
  destruct (generateLinodeUUID_format 79475478 H) as (E & L & _).
  split; [rewrite E; reflexivity | exact L].
Defined.

(** C7. [isInvalidUUID s] is true exactly when [s] is the empty string or
    the all-zero UUID; every other string is accepted. *)
Theorem isInvalidUUID_iff (s : string) :
  isInvalidUUID s = true <->
  s = "" \/ s = "00000000-0000-0000-0000-000000000000".
Proof.
  unfold isInvalidUUID.
  destruct (String.eqb_spec s "") as [->|Hne]; [tauto|].
  destruct (String.eqb_spec s "00000000-0000-0000-0000-000000000000") as [->|Hnz].
  - tauto.
  - split; [discriminate | intros [?|?]; contradiction].
Qed.

(** ** Splitting *)

Lemma Split_nonempty (s : string) (sep : ascii) : Split s sep <> [].
Proof.
  destruct s as [|c s]; simpl; [discriminate|].
  destruct (Ascii.eqb c sep); [discriminate|].
  destruct (Split s sep); discriminate.
Qed.

(** Joining the segments with the separator gives the text back. *)
Lemma Join_Split (s : string) (sep : ascii) : Join (Split s sep) sep = s.
Proof.
  induction s as [|c s IH]; [reflexivity|].
  simpl. destruct (Ascii.eqb_spec c sep) as [->|Hne].
  - pose proof (Split_nonempty s sep) as Hn.
    destruct (Split s sep) as [|seg segs]; [contradiction|].
    change (Join ("" :: seg :: segs) sep) with (String sep (Join (seg :: segs) sep)).
    now rewrite IH.
  - pose proof (Split_nonempty s sep) as Hn.
    destruct (Split s sep) as [|seg segs]; [contradiction|].
    destruct segs as [|seg' segs]; simpl in *; now rewrite <- IH.
Qed.

(** No segment holds the separator. *)
Lemma Split_segments (s : string) (sep : ascii) :
  Forall (fun seg => contains seg sep = false) (Split s sep).
Proof.
  induction s as [|c s IH]; simpl.
  - constructor; [reflexivity | constructor].
  - destruct (Ascii.eqb_spec c sep) as [->|Hne].
    + constructor; [reflexivity | exact IH].
    + destruct (Split s sep) as [|seg segs].
      * constructor; [|constructor]. unfold contains. simpl.
        rewrite Ascii.eqb_sym. apply Ascii.eqb_neq in Hne. now rewrite Hne.
      * inversion IH as [|? ? Hseg Hsegs]; subst. constructor; [|exact Hsegs].
        unfold contains in *. simpl. rewrite Ascii.eqb_sym.
        apply Ascii.eqb_neq in Hne. now rewrite Hne.
Qed.

(** ** ensureValidUUID *)

Section EnsureValidUUID.
Context `{ResourceIDs}.

Lemma answer_get_MetaKey (env : Env) (st : Store) (id : string) :
  (exists err, answer env st (Get MetaKeyType id) = Failed err) \/
  (exists spec, answer env st (Get MetaKeyType id) = Found (MetaKey id spec)).
Proof.
  unfold answer. destruct (env (Get MetaKeyType id)) as [err|]; [left; eauto|].
  simpl. destruct (MetaKeys st !! id) as [spec|]; simpl; [right | left]; eauto.
Qed.

Lemma answer_get_SystemInformation (env : Env) (st : Store) (id : string) :
  (exists err, answer env st (Get SystemInformationType id) = Failed err) \/
  (exists info, answer env st (Get SystemInformationType id) = Found (SystemInformation id info)).
Proof.
  unfold answer. destruct (env (Get SystemInformationType id)) as [err|]; [left; eauto|].
  simpl. destruct (SystemInformations st !! id) as [info|]; simpl; [right | left]; eauto.
Qed.

(** A read that reaches the store returns what the store holds. *)
Lemma answer_get_present (env : Env) (st : Store) (id : string) (spec : MetaKeySpec) :
  env (Get MetaKeyType id) = None -> MetaKeys st !! id = Some spec ->
  answer env st (Get MetaKeyType id) = Found (MetaKey id spec).
Proof. intros Henv Hl. unfold answer. rewrite Henv. simpl. now rewrite Hl. Qed.

(** A read that reaches the store fails with not-found only. *)
Lemma answer_get_failed (env : Env) (st : Store) (t : ResourceType) (id : string) (err : error) :
  env (Get t id) = None -> answer env st (Get t id) = Failed err ->
  IsNotFoundError err = true.
Proof.
  intros Henv. unfold answer. rewrite Henv. simpl.
  destruct (lookupResource st t id); simpl; intros [= <-]; reflexivity.
Qed.

Lemma effect_get (env : Env) (st : Store) (t : ResourceType) (id : string) :
  effect env st (Get t id) = st.
Proof.
  unfold effect. destruct (env (Get t id)); [reflexivity|].
  simpl. destruct (lookupResource st t id); reflexivity.
Qed.

(** Create is insert-if-absent: it fails and leaves the store alone, or the
    key was free and the store gains the resource. *)
Lemma create_MetaKey_cases (env : Env) (st : Store) (id : string) (spec : MetaKeySpec) :
  (exists err, answer env st (Create (MetaKey id spec)) = Failed err /\
               effect env st (Create (MetaKey id spec)) = st) \/
  (answer env st (Create (MetaKey id spec)) = Done /\
   effect env st (Create (MetaKey id spec)) = putResource st (MetaKey id spec) /\
   MetaKeys st !! id = None).
Proof.
  unfold answer, effect. destruct (env (Create (MetaKey id spec))) as [err|]; [left; eauto|].
  simpl. destruct (MetaKeys st !! id) as [old|]; simpl; [left | right]; eauto.
Qed.

Lemma overrideIfNeeded_run (env : Env) (st : Store) (linodeID : Z)
    (systemInfo : option SystemInformationSpec) (r1 r2 : Response)
    (shouldOverride : bool) (currentUUID : string) :
  answer env st readOverride = r1 -> NoOverrideSeen r1 ->
  answer env st readSystemInformation = r2 ->
  Observed r2 shouldOverride currentUUID ->
  (shouldOverride, currentUUID) =
    match systemInfo with
    | Some info => (isInvalidUUID (UUID info), UUID info)
    | None => (true, "not-available-yet")
    end ->
  Run linodeID env st
    (prepend [(readOverride, r1); (readSystemInformation, r2)]
       (overrideIfNeeded systemInfo linodeID env st)).
Proof.
  intros E1 N1 E2 O2 Hobs. unfold overrideIfNeeded. rewrite <- Hobs.
  destruct (shouldOverride && (0 <? linodeID)) eqn:Hgo.
  - apply andb_true_iff in Hgo as [-> Hpos]. apply Z.ltb_lt in Hpos.
    cbv [StateCreate mbind M_bind bind call ret prepend].
    fold (createOverride linodeID).
    destruct (create_MetaKey_cases env st UUIDOverrideID {| Value := generateLinodeUUID linodeID |})
      as [(err & Ha & He)|(Ha & He & Hnone)];
      fold (createOverride linodeID) in Ha, He; rewrite Ha, He; cbv beta iota.
    + pose proof (RunCreateFailed linodeID env st r1 r2 currentUUID err E1 N1 E2 O2 Hpos Ha) as R.
      destruct (IsConflictError err); exact R.
    + exact (RunCreated linodeID env st r1 r2 currentUUID E1 N1 E2 O2 Hpos Ha Hnone).
  - cbv [ret prepend].
    exact (RunNothingToDo linodeID env st r1 r2 shouldOverride currentUUID E1 N1 E2 O2 Hgo).
Qed.

Lemma checkSystemInformation_run (env : Env) (st : Store) (linodeID : Z) (r1 : Response) :
  answer env st readOverride = r1 -> NoOverrideSeen r1 ->
  Run linodeID env st (prepend [(readOverride, r1)] (checkSystemInformation linodeID env st)).
Proof.
  intros E1 N1.
  unfold checkSystemInformation, ReaderGetByID_SystemInformation, mbind, M_bind, bind, call.
  rewrite effect_get. fold readSystemInformation.
  destruct (answer_get_SystemInformation env st SystemInformationID)
    as [(err & Ha)|(info & Ha)]; fold readSystemInformation in Ha; rewrite Ha; cbv [ret].
  - destruct (IsNotFoundError err) eqn:Hnf; cbv [negb].
    + pose proof (overrideIfNeeded_run env st linodeID None r1 (Failed err) true "not-available-yet"
                    E1 N1 Ha (ObservedNothing err Hnf) eq_refl) as R.
      unfold prepend in *.
      destruct (overrideIfNeeded None linodeID env st) as [[e s] l]. exact R.
    + exact (RunReadFailed linodeID env st r1 err E1 N1 Ha Hnf).
  - pose proof (overrideIfNeeded_run env st linodeID (Some info) r1 _ _ _
                  E1 N1 Ha (ObservedUUID info) eq_refl) as R.
    unfold prepend in *.
    destruct (overrideIfNeeded (Some info) linodeID env st) as [[e s] l]. exact R.
Qed.

(** An override read that fails, with whatever error, only hands over to
    the rest of the function. *)
Lemma ensureValidUUID_override_read_failed (env : Env) (st : Store) (linodeID : Z) (err : error) :
  answer env st readOverride = Failed err ->
  ensureValidUUID linodeID env st =
  prepend [(readOverride, Failed err)] (checkSystemInformation linodeID env st).
Proof.
  intros Ha.
  unfold ensureValidUUID, ReaderGetByID_MetaKey, mbind, M_bind, bind, call.
  rewrite effect_get. fold readOverride. rewrite Ha. cbv [ret prepend].
  destruct (checkSystemInformation linodeID env st) as [[e s] l]. reflexivity.
Qed.

(** Every run of the function follows one of the paths. *)
Lemma ensureValidUUID_run (env : Env) (st : Store) (linodeID : Z) :
  Run linodeID env st (ensureValidUUID linodeID env st).
Proof.
  destruct (answer_get_MetaKey env st UUIDOverrideID)
    as [(err & Ha)|(spec & Ha)]; fold readOverride in Ha.
  - rewrite (ensureValidUUID_override_read_failed env st linodeID err Ha).
    exact (checkSystemInformation_run env st linodeID (Failed err) Ha (OverrideReadFailed err)).
  - unfold ensureValidUUID, ReaderGetByID_MetaKey, mbind, M_bind, bind, call.
    rewrite effect_get. fold readOverride. rewrite Ha. cbv [ret].
    destruct (String.eqb_spec (Value spec) "") as [Hempty|Hset]; cbv [negb].
    + pose proof (checkSystemInformation_run env st linodeID _ Ha (OverrideEmpty spec Hempty)) as R.
      unfold prepend in R. destruct (checkSystemInformation linodeID env st) as [[e s] l]. exact R.
    + exact (RunAlreadySet linodeID env st spec Ha Hset).
Qed.

(** Case analysis on the membership of an entry in the log of a path. *)
Ltac log_cases Hin :=
  cbn [logOf snd In] in Hin;
  repeat (destruct Hin as [Hin|Hin];
          [apply pair_equal_spec in Hin as [Hreq Hresp];
           unfold readOverride, readSystemInformation, createOverride in Hreq;
           try discriminate Hreq; try discriminate Hresp;
           try (injection Hresp as Hresp)|]);
  try contradiction.

(** C1, amended. Write-once: when the override record exists with a
    non-empty value, a call leaves the store, and so the stored override
    value, exactly as it was, whatever the linodeID, the hardware UUID and
    the failures of the store; and when the override read is answered by the
    store, the call returns success and issues no write at all. *)
Theorem ensureValidUUID_write_once (env : Env) (st : Store) (linodeID : Z)
    (spec : MetaKeySpec) :
  MetaKeys st !! UUIDOverrideID = Some spec ->
  Value spec <> "" ->
  storeOf (ensureValidUUID linodeID env st) = st /\
  (env readOverride = None ->
   errOf (ensureValidUUID linodeID env st) = None /\
   writes (logOf (ensureValidUUID linodeID env st)) = []).
Proof.
  intros Hl Hset.
  assert (Hseen : env readOverride = None ->
                  forall r1, answer env st readOverride = r1 -> ~ NoOverrideSeen r1).
  { intros Henv r1 E1 N1. unfold readOverride in Henv, E1.
    rewrite (answer_get_present env st _ spec Henv Hl) in E1.
    subst r1. inversion N1; subst. contradiction. }
  destruct (ensureValidUUID_run env st linodeID)
    as [spec' Ha Hv | r1 err E1 N1 E2 Hnf | r1 r2 should cur E1 N1 E2 O2 Hgo
        | r1 r2 cur E1 N1 E2 O2 Hpos E3 Hnone | r1 r2 cur err E1 N1 E2 O2 Hpos E3].
  - split; [reflexivity | intros _; split; reflexivity].
  - split; [reflexivity | intros Henv; destruct (Hseen Henv r1 E1 N1)].
  - split; [reflexivity | intros Henv; destruct (Hseen Henv r1 E1 N1)].
  - congruence.
  - split; [reflexivity | intros Henv; destruct (Hseen Henv r1 E1 N1)].
Qed.

(** C3, amended. A system-information read that fails with not-found is
    benign: the UUID counts as unavailable and the function goes on to the
    override decision. A system-information read that fails with any other
    error makes the function return that error, wrapped, at once. A failed
    override read never makes the function fail, be the error not-found or
    not: the function goes on with the system-information read. *)
Theorem ensureValidUUID_read_errors (env : Env) (st : Store) (linodeID : Z) (err : error) :
  (In (readSystemInformation, Failed err) (logOf (ensureValidUUID linodeID env st)) ->
   IsNotFoundError err = false ->
   errOf (ensureValidUUID linodeID env st) =
     Some (Errorf getSystemInformationFailed [] err) /\
   storeOf (ensureValidUUID linodeID env st) = st /\
   writes (logOf (ensureValidUUID linodeID env st)) = [] /\
   last (logOf (ensureValidUUID linodeID env st)) =
     Some (readSystemInformation, Failed err)) /\
  (In (readSystemInformation, Failed err) (logOf (ensureValidUUID linodeID env st)) ->
   IsNotFoundError err = true ->
   (0 < linodeID ->
    In (createOverride linodeID) (writes (logOf (ensureValidUUID linodeID env st)))) /\
   (errOf (ensureValidUUID linodeID env st) = None \/
    exists cause,
      In (createOverride linodeID, Failed cause) (logOf (ensureValidUUID linodeID env st)) /\
      errOf (ensureValidUUID linodeID env st) =
        Some (Errorf createOverrideFailed ["not-available-yet"] cause))) /\
  (answer env st readOverride = Failed err ->
   ensureValidUUID linodeID env st =
     prepend [(readOverride, Failed err)] (checkSystemInformation linodeID env st)).
Proof.
  split; [|split]; [| |apply ensureValidUUID_override_read_failed].
  - intros Hin Hnf.
    destruct (ensureValidUUID_run env st linodeID)
      as [spec' Ha Hv | r1 err' E1 N1 E2 Hnf' | r1 r2 should cur E1 N1 E2 O2 Hgo
          | r1 r2 cur E1 N1 E2 O2 Hpos E3 Hnone | r1 r2 cur err' E1 N1 E2 O2 Hpos E3];
      log_cases Hin.
    + subst err'. repeat split; reflexivity.
    + subst r2. inversion O2; congruence.
    + subst r2. inversion O2; congruence.
    + subst r2. inversion O2; congruence.
  - intros Hin Hnf.
    destruct (ensureValidUUID_run env st linodeID)
      as [spec' Ha Hv | r1 err' E1 N1 E2 Hnf' | r1 r2 should cur E1 N1 E2 O2 Hgo
          | r1 r2 cur E1 N1 E2 O2 Hpos E3 Hnone | r1 r2 cur err' E1 N1 E2 O2 Hpos E3];
      log_cases Hin.
    + congruence.
    + subst r2. inversion O2; subst. rewrite andb_true_l in Hgo. apply Z.ltb_ge in Hgo.
      split; [lia | left; reflexivity].
    + split; [intros _; left; reflexivity | left; reflexivity].
    + subst r2. inversion O2; subst. split; [intros _; left; reflexivity|].
      cbn [errOf fst]. destruct (IsConflictError err'); [left; reflexivity|].
      right. exists err'. split; [|reflexivity]. cbn [logOf snd]. simpl. tauto.
Qed.

(** C4. Conflict tolerance: the only request that can fail as a write is
    the Create of the override. When it fails with a conflict the function
    returns success and the store, with the value committed before, is
    left as it was; when it fails with any other error the function
    returns that error wrapped together with the current UUID it observed
    as invalid (the placeholder [not-available-yet] when the system
    information was not found). *)
Theorem ensureValidUUID_create_failure (env : Env) (st : Store) (linodeID : Z)
    (req : Request) (err : error) :
  In (req, Failed err) (logOf (ensureValidUUID linodeID env st)) ->
  isWrite req = true ->
  req = createOverride linodeID /\
  storeOf (ensureValidUUID linodeID env st) = st /\
  (IsConflictError err = true -> errOf (ensureValidUUID linodeID env st) = None) /\
  (IsConflictError err = false ->
   exists currentUUID,
     errOf (ensureValidUUID linodeID env st) =
       Some (Errorf createOverrideFailed [currentUUID] err) /\
     ((exists info,
         In (readSystemInformation, Found (SystemInformation SystemInformationID info))
            (logOf (ensureValidUUID linodeID env st)) /\
         currentUUID = UUID info /\ isInvalidUUID currentUUID = true) \/
      (exists notFound,
         In (readSystemInformation, Failed notFound)
            (logOf (ensureValidUUID linodeID env st)) /\
         IsNotFoundError notFound = true /\ currentUUID = "not-available-yet"))).
Proof.
  intros Hin Hw.
  destruct (ensureValidUUID_run env st linodeID)
    as [spec' Ha Hv | r1 err' E1 N1 E2 Hnf' | r1 r2 should cur E1 N1 E2 O2 Hgo
        | r1 r2 cur E1 N1 E2 O2 Hpos E3 Hnone | r1 r2 cur err' E1 N1 E2 O2 Hpos E3];
    log_cases Hin; subst req; try discriminate Hw.
  subst err'. split; [reflexivity|]. split; [reflexivity|]. cbn [errOf fst].
  split; intros Hc; rewrite Hc; [reflexivity|].
  exists cur. split; [reflexivity|]. cbn [logOf snd].
  inversion O2 as [info Hr Hinv Hcur | notFound Hnf Hr Hs Hcur]; subst.
  - left. exists info. split; [simpl; tauto|]. split; [reflexivity | congruence].
  - right. exists notFound. split; [simpl; tauto|]. split; [exact Hnf | reflexivity].
Qed.

(** C5, amended. Non-positive ID guard: with [linodeID <= 0] no write is
    ever issued, so no override record is created and the store is left as
    it was, whatever it holds and whatever fails. The call returns success
    when the system-information read is answered by the store (UUID empty,
    all-zero, valid or not found); the only error it can return is the
    wrapped error of a system-information read that failed with an error
    other than not-found. *)
Theorem ensureValidUUID_nonpositive_id (env : Env) (st : Store) (linodeID : Z) :
  linodeID <= 0 ->
  writes (logOf (ensureValidUUID linodeID env st)) = [] /\
  storeOf (ensureValidUUID linodeID env st) = st /\
  (env readSystemInformation = None ->
   errOf (ensureValidUUID linodeID env st) = None) /\
  (forall e : error,
     errOf (ensureValidUUID linodeID env st) = Some e ->
     exists cause,
       In (readSystemInformation, Failed cause) (logOf (ensureValidUUID linodeID env st)) /\
       IsNotFoundError cause = false /\
       e = Errorf getSystemInformationFailed [] cause).
Proof.
  intros Hid.
  destruct (ensureValidUUID_run env st linodeID)
    as [spec' Ha Hv | r1 err' E1 N1 E2 Hnf' | r1 r2 should cur E1 N1 E2 O2 Hgo
        | r1 r2 cur E1 N1 E2 O2 Hpos E3 Hnone | r1 r2 cur err' E1 N1 E2 O2 Hpos E3];
    try lia.
  - split; [reflexivity|]. split; [reflexivity|]. split; [reflexivity|].
    intros e He. discriminate He.
  - split; [reflexivity|]. split; [reflexivity|]. split.
    + intros Henv. pose proof (answer_get_failed env st _ _ err' Henv E2). congruence.
    + intros e [= <-]. exists err'. split; [simpl; tauto|]. split; [exact Hnf' | reflexivity].
  - split; [reflexivity|]. split; [reflexivity|]. split; [reflexivity|].
    intros e He. discriminate He.
Qed.

(** C10. Frame: the writes of a call are at most one Create of the
    override key, never an Update or a Destroy; the store afterwards is the
    store before, or the store before plus the freshly created override
    under a key that was free. So every system information, every other
    meta key and any override that existed before, whatever its value, is
    unchanged on every return path. *)
Theorem ensureValidUUID_frame (env : Env) (st : Store) (linodeID : Z) :
  (writes (logOf (ensureValidUUID linodeID env st)) = [] \/
   writes (logOf (ensureValidUUID linodeID env st)) = [createOverride linodeID]) /\
  (storeOf (ensureValidUUID linodeID env st) = st \/
   (MetaKeys st !! UUIDOverrideID = None /\
    storeOf (ensureValidUUID linodeID env st) =
      putResource st (MetaKey UUIDOverrideID {| Value := generateLinodeUUID linodeID |}))) /\
  SystemInformations (storeOf (ensureValidUUID linodeID env st)) = SystemInformations st /\
  (forall id : string, id <> UUIDOverrideID ->
     MetaKeys (storeOf (ensureValidUUID linodeID env st)) !! id = MetaKeys st !! id) /\
  (forall spec : MetaKeySpec, MetaKeys st !! UUIDOverrideID = Some spec ->
     MetaKeys (storeOf (ensureValidUUID linodeID env st)) !! UUIDOverrideID = Some spec).
Proof.
  destruct (ensureValidUUID_run env st linodeID)
    as [spec' Ha Hv | r1 err' E1 N1 E2 Hnf' | r1 r2 should cur E1 N1 E2 O2 Hgo
        | r1 r2 cur E1 N1 E2 O2 Hpos E3 Hnone | r1 r2 cur err' E1 N1 E2 O2 Hpos E3];
    cbn [storeOf logOf fst snd].
  1-3, 5: split; [(left; reflexivity) || (right; reflexivity)|];
    split; [left; reflexivity|]; split; [reflexivity|]; split; [reflexivity | tauto].
  split; [right; reflexivity|]. split; [right; split; [exact Hnone | reflexivity]|].
  split; [reflexivity|]. split.
  - intros id Hne. cbn [putResource MetaKeys]. apply lookup_insert_ne. congruence.
  - intros spec Hl. congruence.
Qed.
End EnsureValidUUID.

(** ** ParseMetadata *)

Section Translation.
Context `{NetipText} `{Machinery}.

(** The three address loops append one entry per prefix, in order. *)
Lemma fold_publicStep (l : list Prefix) (acc : Collected) :
  fold_left publicStep l acc =
  ((acc.1 ++ map textOf l)%list, (acc.2 ++ map ipv4Address l)%list).
Proof.
  revert acc; induction l as [|p l IH]; intros [ips addrs]; simpl.
  - now rewrite !app_nil_r.
  - rewrite IH. simpl. now rewrite <- !app_assoc.
Qed.

Lemma fold_privateStep (l : list Prefix) (acc : Collected) :
  fold_left privateStep l acc = (acc.1, (acc.2 ++ map ipv4Address l)%list).
Proof.
  revert acc; induction l as [|p l IH]; intros [ips addrs]; simpl.
  - now rewrite app_nil_r.
  - rewrite IH. simpl. now rewrite <- app_assoc.
Qed.

Lemma fold_rangeStep (l : list Prefix) (acc : Collected) :
  fold_left rangeStep l acc =
  ((acc.1 ++ map textOf l)%list, (acc.2 ++ map ipv6RangeAddress l)%list).
Proof.
  revert acc; induction l as [|p l IH]; intros [ips addrs]; simpl.
  - now rewrite !app_nil_r.
  - rewrite IH. simpl. now rewrite <- !app_assoc.
Qed.

(** The last loop keeps the strings that parse, in order. *)
Lemma fold_externalStep (l : list Prefix) (acc : list Addr) :
  fold_left externalStep (map textOf l) acc = (acc ++ flat_map bareAddress l)%list.
Proof.
  revert acc; induction l as [|p l IH]; intros acc; simpl.
  - now rewrite app_nil_r.
  - rewrite IH. unfold externalStep, bareAddress.
    destruct (ParseAddr (textOf p)); simpl;
      [now rewrite <- app_assoc | reflexivity].
Qed.

Lemma parseHostname_accepted (metadata : InstanceData.t) :
  labelAccepted metadata <->
  exists hostnames, parseHostname (InstanceData.Label metadata) = OK hostnames.
Proof.
  unfold labelAccepted, parseHostname.
  destruct (String.eqb_spec (InstanceData.Label metadata) "") as [->|Hne]; simpl.
  - split; [eauto | tauto].
  - destruct (ParseFQDN _ (InstanceData.Label metadata)) as [spec [err|]]; simpl.
    + split; [intros [?|?]; [contradiction | discriminate] | intros [? ?]; discriminate].
    + split; [eauto | tauto].
Qed.

(** The shape of every config the translation returns. *)
Lemma ParseMetadata_OK (metadata : InstanceData.t) (interfaceAddresses : NetworkData.t)
    (cfg : PlatformNetworkConfig.t) :
  let ipv4 := NetworkData.IPv4 interfaceAddresses in
  let ipv6 := NetworkData.IPv6 interfaceAddresses in
  ParseMetadata metadata interfaceAddresses = OK cfg ->
  exists ipv6gw,
    ParseAddr (gatewayText (IPv6Data.LinkLocal ipv6)) = OK ipv6gw /\
    PlatformNetworkConfig.Addresses cfg =
      (map ipv4Address (IPv4Data.Public ipv4) ++ map ipv4Address (IPv4Data.Private ipv4) ++
       map ipv6RangeAddress (IPv6Data.Ranges ipv6) ++
       [linkLocalAddress (IPv6Data.LinkLocal ipv6)])%list /\
    PlatformNetworkConfig.Routes cfg =
      [Normalize (defaultRoute ipv6gw (IPv6Data.LinkLocal ipv6))] /\
    PlatformNetworkConfig.ExternalIPs cfg =
      (flat_map bareAddress (IPv4Data.Public ipv4) ++
       flat_map bareAddress (IPv6Data.Ranges ipv6))%list.
Proof.
  intros ipv4 ipv6. unfold ParseMetadata. fold ipv4 ipv6.
  destruct (parseHostname (InstanceData.Label metadata)) as [hostnames|err]; [|discriminate].
  rewrite fold_publicStep, fold_privateStep, fold_rangeStep. cbn [fst snd app].
  destruct (ParseAddr (gatewayText (IPv6Data.LinkLocal ipv6))) as [ipv6gw|err]; [|discriminate].
  intros [= <-]. exists ipv6gw. cbn.
  split; [reflexivity|]. split; [now rewrite <- !app_assoc|]. split; [reflexivity|].
  rewrite <- map_app, fold_externalStep, flat_map_app. reflexivity.
Qed.

(** C2, amended. For every instance metadata whose label is empty or
    accepted by [ParseFQDN], and every network metadata: when the first
    colon-delimited segment of the link-local prefix's text followed by
    [::1] parses as an address, ParseMetadata returns a config with exactly
    one route, the normalized route to that gateway (out-link eth0,
    destination the link-local prefix, main table, static protocol,
    unicast type, IPv6 family, priority 1024). When that text fails to
    parse, ParseMetadata returns an error and no config, whatever the
    label. *)
Theorem ParseMetadata_default_route (metadata : InstanceData.t)
    (interfaceAddresses : NetworkData.t) :
  let linkLocal := IPv6Data.LinkLocal (NetworkData.IPv6 interfaceAddresses) in
  (labelAccepted metadata ->
   forall ipv6gw : Addr,
     ParseAddr (gatewayText linkLocal) = OK ipv6gw ->
     exists cfg,
       ParseMetadata metadata interfaceAddresses = OK cfg /\
       PlatformNetworkConfig.Routes cfg =
         [Normalize
            {| RouteSpecSpec.ConfigLayer := ConfigPlatform;
               RouteSpecSpec.Gateway := ipv6gw;
               RouteSpecSpec.OutLinkName := "eth0";
               RouteSpecSpec.Destination := linkLocal;
               RouteSpecSpec.Table := TableMain;
               RouteSpecSpec.Protocol := ProtocolStatic;
               RouteSpecSpec.RouteType := TypeUnicast;
               RouteSpecSpec.Family := FamilyInet6;
               RouteSpecSpec.Priority := 1024 |}]) /\
  (forall err : error,
     ParseAddr (gatewayText linkLocal) = Err err ->
     exists err', ParseMetadata metadata interfaceAddresses = Err err').
Proof.
  intros linkLocal. split.
  - intros Hlabel ipv6gw Hgw. apply parseHostname_accepted in Hlabel as [hostnames Hh].
    unfold ParseMetadata. rewrite Hh. fold linkLocal. rewrite Hgw.
    eexists. split; reflexivity.
  - intros err Hgw. unfold ParseMetadata.
    destruct (parseHostname (InstanceData.Label metadata)) as [hostnames|err']; [|eauto].
    fold linkLocal. rewrite Hgw. eauto.
Qed.

(** C8. In every config the translation returns, the address list is: one
    entry per public and then per private IPv4 prefix, each with global
    scope, the permanent flag, IPv4 family and link eth0; one entry per
    IPv6 range with global scope, the management-temporary flag and IPv6
    family; and last the entry of the link-local prefix, with link scope
    and no flag. The link-local entry is there whatever the other lists
    hold, and it is the only link-scoped entry. *)
Theorem ParseMetadata_addresses (metadata : InstanceData.t)
    (interfaceAddresses : NetworkData.t) (cfg : PlatformNetworkConfig.t) :
  let ipv4 := NetworkData.IPv4 interfaceAddresses in
  let ipv6 := NetworkData.IPv6 interfaceAddresses in
  ParseMetadata metadata interfaceAddresses = OK cfg ->
  PlatformNetworkConfig.Addresses cfg =
    (map (addressEntry ScopeGlobal [AddressPermanent] FamilyInet4) (IPv4Data.Public ipv4) ++
     map (addressEntry ScopeGlobal [AddressPermanent] FamilyInet4) (IPv4Data.Private ipv4) ++
     map (addressEntry ScopeGlobal [AddressManagementTemp] FamilyInet6) (IPv6Data.Ranges ipv6) ++
     [addressEntry ScopeLink [] FamilyInet6 (IPv6Data.LinkLocal ipv6)])%list /\
  List.filter (fun a => Scope_eqb (AddressSpecSpec.Scope a) ScopeLink)
              (PlatformNetworkConfig.Addresses cfg) =
    [addressEntry ScopeLink [] FamilyInet6 (IPv6Data.LinkLocal ipv6)] /\
  hasFlag (AddressSpecSpec.Flags (addressEntry ScopeLink [] FamilyInet6 (IPv6Data.LinkLocal ipv6)))
          AddressPermanent = false.
Proof.
  intros ipv4 ipv6 Hok.
  destruct (ParseMetadata_OK metadata interfaceAddresses cfg Hok) as (gw & _ & Haddr & _).
  fold ipv4 ipv6 in Haddr. rewrite Haddr.
  split; [reflexivity|]. split; [|reflexivity].
  assert (Hglobal : forall (f : Prefix -> AddressSpecSpec.t) (l : list Prefix),
             (forall p, AddressSpecSpec.Scope (f p) = ScopeGlobal) ->
             List.filter (fun a => Scope_eqb (AddressSpecSpec.Scope a) ScopeLink) (map f l) = []).
  { intros f l Hf. induction l as [|p l IH]; simpl; [reflexivity|]. now rewrite Hf. }
  rewrite !List.filter_app, !Hglobal by reflexivity. reflexivity.
Qed.

(** Whether the translation succeeds is decided by the label and the
    gateway text alone. *)
Lemma ParseMetadata_succeeds (metadata : InstanceData.t) (interfaceAddresses : NetworkData.t)
    (ipv6gw : Addr) :
  labelAccepted metadata ->
  ParseAddr (gatewayText (IPv6Data.LinkLocal (NetworkData.IPv6 interfaceAddresses))) = OK ipv6gw ->
  exists cfg, ParseMetadata metadata interfaceAddresses = OK cfg.
Proof.
  intros Hlabel Hgw. apply parseHostname_accepted in Hlabel as [hostnames Hh].
  unfold ParseMetadata. rewrite Hh, Hgw. eauto.
Qed.

(** C9. In every config the translation returns, the external-IP list is
    the bare addresses of the public IPv4 prefixes, in order, followed by
    the bare addresses of the IPv6 ranges, in order, where an address whose
    text does not parse again is left out. Private IPv4 prefixes and the
    link-local prefix contribute nothing. A text that does not parse again
    does not make the translation fail: it succeeds whenever the label is
    accepted and the gateway text parses. *)
Theorem ParseMetadata_external_ips (metadata : InstanceData.t)
    (interfaceAddresses : NetworkData.t) :
  let ipv4 := NetworkData.IPv4 interfaceAddresses in
  let ipv6 := NetworkData.IPv6 interfaceAddresses in
  (forall cfg : PlatformNetworkConfig.t,
     ParseMetadata metadata interfaceAddresses = OK cfg ->
     PlatformNetworkConfig.ExternalIPs cfg =
       (flat_map bareAddress (IPv4Data.Public ipv4) ++
        flat_map bareAddress (IPv6Data.Ranges ipv6))%list) /\
  (labelAccepted metadata ->
   forall ipv6gw : Addr,
     ParseAddr (gatewayText (IPv6Data.LinkLocal ipv6)) = OK ipv6gw ->
     exists cfg, ParseMetadata metadata interfaceAddresses = OK cfg).
Proof.
  intros ipv4 ipv6. split.
  - intros cfg Hok.
    destruct (ParseMetadata_OK metadata interfaceAddresses cfg Hok) as (gw & _ & _ & _ & Hext).
    exact Hext.
  - intros Hlabel ipv6gw Hgw.
    exact (ParseMetadata_succeeds metadata interfaceAddresses ipv6gw Hlabel Hgw).
Qed.
End Translation.

(** ** Scenarios of the reconciler *)

(** No override needed for a valid UUID. *)
Example ensureValidUUID_valid_uuid :
  let r := @ensureValidUUID ResourceIDs_model 79475478 reliable
             (storeOfOptions None (Some "550e8400-e29b-41d4-a716-446655440000")) in
  errOf r = None /\ MetaKeys (storeOf r) !! "0x0e" = None.
Proof. vm_compute. split; reflexivity. Qed.

(** Override created for the zero UUID. *)
Example ensureValidUUID_zero_uuid :
  let r := @ensureValidUUID ResourceIDs_model 79475478 reliable
             (storeOfOptions None (Some zeroUUID)) in
  errOf r = None /\
  MetaKeys (storeOf r) !! "0x0e" = Some {| Value := "00000000-0000-0000-0000-000079475478" |}.
Proof. vm_compute. split; reflexivity. Qed.

(** Override created when the system information is not available. *)
Example ensureValidUUID_not_available :
  let r := @ensureValidUUID ResourceIDs_model 12345 reliable (storeOfOptions None None) in
  errOf r = None /\
  MetaKeys (storeOf r) !! "0x0e" = Some {| Value := "00000000-0000-0000-0000-000000012345" |}.
Proof. vm_compute. split; reflexivity. Qed.

(** A Create that fails for another reason than a conflict is reported with
    the UUID that was found invalid. *)
Example ensureValidUUID_create_fails :
  errOf (@ensureValidUUID ResourceIDs_model 79475478 (failCreates deadlineExceeded)
           (storeOfOptions None (Some zeroUUID))) =
  Some (Errorf createOverrideFailed [zeroUUID] deadlineExceeded).
Proof. vm_compute. reflexivity. Qed.

(** An empty override is not a conflict-free slot: the Create conflicts, the
    call succeeds and the empty value stays. *)
Example ensureValidUUID_empty_override :
  let r := @ensureValidUUID ResourceIDs_model 12345 reliable (storeOfOptions (Some "") None) in
  errOf r = None /\ MetaKeys (storeOf r) !! "0x0e" = Some {| Value := "" |}.
Proof. vm_compute. split; reflexivity. Qed.

Lemma generateLinodeUUID_tests :
  generateLinodeUUID 123 = "00000000-0000-0000-0000-000000000123" /\
  generateLinodeUUID 79475478 = "00000000-0000-0000-0000-000079475478" /\
  generateLinodeUUID 999999999999 = "00000000-0000-0000-0000-999999999999" /\
  generateLinodeUUID 1 = "00000000-0000-0000-0000-000000000001".
Proof. repeat split; reflexivity. Qed.

(** Outside [0, 10^12) the result is no longer 36 characters of that shape. *)
Example generateLinodeUUID_out_of_range :
  generateLinodeUUID 1000000000000 = "00000000-0000-0000-0000-1000000000000" /\
  generateLinodeUUID (-5) = "00000000-0000-0000-0000--00000000005".
Proof. split; reflexivity. Qed.

Lemma isInvalidUUID_tests :
  isInvalidUUID "" = true /\
  isInvalidUUID "00000000-0000-0000-0000-000000000000" = true /\
  isInvalidUUID "550e8400-e29b-41d4-a716-446655440000" = false /\
  isInvalidUUID "00000000-0000-0000-0000-000079475478" = false /\
  isInvalidUUID "6ba7b810-9dad-11d1-80b4-00c04fd430c8" = false.
Proof. repeat split; reflexivity. Qed.

(** Existing override not modified. *)
Lemma ensureValidUUID_write_once_witness :
  let st := storeOfOptions (Some "existing-uuid-should-not-change") (Some zeroUUID) in
  let r := @ensureValidUUID ResourceIDs_model 79475478 reliable st in
  storeOf r = st /\ errOf r = None /\ writes (logOf r) = [].
Proof.
  intros st r.
  assert (Hl : MetaKeys st !! (@UUIDOverrideID ResourceIDs_model) =
               Some {| Value := "existing-uuid-should-not-change" |})
    by (vm_compute; reflexivity).
  assert (Hv : Value {| Value := "existing-uuid-should-not-change" |} <> "")
    by (simpl; discriminate).
  destruct (@ensureValidUUID_write_once ResourceIDs_model reliable st 79475478 _ Hl Hv)
    as [Hst Hok].
  split; [exact Hst | exact (Hok eq_refl)].
Defined.

(** The override read fails with an error that is not not-found, the
    hardware UUID is valid, and the function returns success: the error of
    the override read is not returned. *)
Lemma ensureValidUUID_override_read_error_dropped :
  ~ @read_failure_returned ResourceIDs_model 79475478 (failMetaKeyReads deadlineExceeded)
      (storeOfOptions None (Some "550e8400-e29b-41d4-a716-446655440000")).
Proof.
  intros Hclaim.
  destruct (Hclaim (Get MetaKeyType "0x0e") deadlineExceeded) as (format & args & Hret).
  - vm_compute. left. reflexivity.
  - reflexivity.
  - reflexivity.
  - vm_compute in Hret. discriminate Hret.
Qed.

Lemma ensureValidUUID_read_errors_witness :
  let env := failSystemInformationReads deadlineExceeded in
  let st := storeOfOptions None (Some zeroUUID) in
  errOf (@ensureValidUUID ResourceIDs_model 79475478 env st) =
    Some (Errorf getSystemInformationFailed [] deadlineExceeded) /\
  storeOf (@ensureValidUUID ResourceIDs_model 79475478 env st) = st.
Proof.
  intros env st.
  assert (Hin : In (@readSystemInformation ResourceIDs_model, Failed deadlineExceeded)
                   (logOf (@ensureValidUUID ResourceIDs_model 79475478 env st)))
    by (vm_compute; right; left; reflexivity).
  destruct (proj1 (@ensureValidUUID_read_errors ResourceIDs_model env st 79475478
                     deadlineExceeded) Hin eq_refl) as (Herr & Hst & _).
  split; [exact Herr | exact Hst].
Defined.

Lemma ensureValidUUID_create_failure_witness :
  let st := storeOfOptions (Some "") (Some zeroUUID) in
  let r := @ensureValidUUID ResourceIDs_model 79475478 reliable st in
  In (@createOverride ResourceIDs_model 79475478, Failed (ErrConflict "0x0e")) (logOf r) /\
  errOf r = None /\ storeOf r = st.
Proof.
  intros st r.
  assert (Hin : In (@createOverride ResourceIDs_model 79475478, Failed (ErrConflict "0x0e"))
                   (logOf r))
    by (vm_compute; right; right; left; reflexivity).
  destruct (@ensureValidUUID_create_failure ResourceIDs_model reliable st 79475478
              _ _ Hin eq_refl) as (_ & Hst & Hconflict & _).
  split; [exact Hin|]. split; [exact (Hconflict eq_refl) | exact Hst].
Defined.

(** A non-empty override exists, the override read fails and the hardware
    UUID is all-zero: the function goes on and issues the Create, which
    conflicts. The call succeeds and the value stays, but a write was
    attempted. *)
Lemma ensureValidUUID_write_attempted :
  ~ @write_once_always ResourceIDs_model 79475478 (failMetaKeyReads deadlineExceeded)
      (storeOfOptions (Some "existing-uuid-should-not-change") (Some zeroUUID)).
Proof.
  intros Hclaim.
  destruct (Hclaim {| Value := "existing-uuid-should-not-change" |}) as (_ & Hw & _).
  - vm_compute. reflexivity.
  - simpl. discriminate.
  - vm_compute in Hw. discriminate Hw.
Qed.

(** The ID is zero and the system-information read fails with an error
    other than not-found: no override is created, but the call returns that
    error. *)
Lemma ensureValidUUID_nonpositive_id_fails :
  ~ @nonpositive_id_always ResourceIDs_model 0 (failSystemInformationReads deadlineExceeded)
      (storeOfOptions None (Some zeroUUID)).
Proof.
  intros Hclaim. destruct (Hclaim ltac:(lia)) as (_ & Herr & _).
  vm_compute in Herr. discriminate Herr.
Qed.

(** No override for a zero linodeID. *)
Lemma ensureValidUUID_nonpositive_id_witness :
  let st := storeOfOptions None (Some zeroUUID) in
  let r := @ensureValidUUID ResourceIDs_model 0 reliable st in
  0 <= 0 /\ writes (logOf r) = [] /\ storeOf r = st /\ errOf r = None.
Proof.
  intros st r.
  assert (Hid : 0 <= 0) by lia.
  destruct (@ensureValidUUID_nonpositive_id ResourceIDs_model reliable st 0 Hid)
    as (Hw & Hst & Hok & _).
  split; [exact Hid|]. split; [exact Hw|]. split; [exact Hst | exact (Hok eq_refl)].
Defined.

(** ** Scenarios of the translation *)

(** The gateway of [fe80::abcd:1/64] is [fe80::1]. *)
Example gatewayText_fe80_abcd_1 :
  @gatewayText NetipText_model {| ip := Addr6 [65152; 0; 0; 0; 0; 0; 43981; 1] ""; bits := 64 |}
  = "fe80::1".
Proof. reflexivity. Qed.

(** Link-local [fe80::1/64] and one range [2001:db8::1/64]: the gateway is
    [fe80::1], and the address list has one link-scoped entry and one
    global-scoped entry with the management-temporary flag. *)
Example ParseMetadata_scenario :
  exists cfg,
    @ParseMetadata NetipText_model Machinery_model (scenarioInstance "node-1.example.com")
      scenarioNetwork = OK cfg /\
    map RouteSpecSpec.Gateway (PlatformNetworkConfig.Routes cfg) =
      [Addr6 [65152; 0; 0; 0; 0; 0; 0; 1] ""] /\
    NetipModel.Addr_String (Addr6 [65152; 0; 0; 0; 0; 0; 0; 1] "") = "fe80::1" /\
    map AddressSpecSpec.Address
      (List.filter (fun a => Scope_eqb (AddressSpecSpec.Scope a) ScopeLink)
         (PlatformNetworkConfig.Addresses cfg)) = [linkLocal_fe80_1] /\
    map AddressSpecSpec.Address
      (List.filter (fun a => hasFlag (AddressSpecSpec.Flags a) AddressManagementTemp)
         (PlatformNetworkConfig.Addresses cfg)) = [range_2001_db8_1] /\
    PlatformNetworkConfig.ExternalIPs cfg = [Addr4 192 0 2 10; ip range_2001_db8_1].
Proof. eexists. split; [vm_compute; reflexivity|]. repeat split; reflexivity. Qed.

(** A zero link-local prefix has the text [invalid Prefix]; the derived
    gateway text, [invalid Prefix::1], does not parse and there is no
    config: the translation returns the parser's error. *)
Example ParseMetadata_invalid_link_local :
  @gatewayText NetipText_model zeroPrefix = "invalid Prefix::1" /\
  exists err,
    @ParseAddr NetipText_model "invalid Prefix::1" = Err err /\
    @ParseMetadata NetipText_model Machinery_model (scenarioInstance "")
      {| NetworkData.IPv4 := {| IPv4Data.Public := []; IPv4Data.Private := [] |};
         NetworkData.IPv6 := {| IPv6Data.Ranges := []; IPv6Data.LinkLocal := zeroPrefix |} |}
    = Err err.
Proof. split; [reflexivity|]. eexists. split; reflexivity. Qed.

(** The gateway text of [fe80::1/64] parses, and a label that is not a
    domain name still makes the translation fail: no route is emitted. *)
Lemma ParseMetadata_route_needs_label :
  ~ @route_emitted NetipText_model Machinery_model (scenarioInstance ".example.com")
      scenarioNetwork.
Proof.
  intros Hclaim.
  destruct (Hclaim (Addr6 [65152; 0; 0; 0; 0; 0; 0; 1] "") eq_refl) as (cfg & Hok & _).
  vm_compute in Hok. discriminate Hok.
Qed.

Lemma ParseMetadata_default_route_witness :
  exists cfg,
    @ParseMetadata NetipText_model Machinery_model (scenarioInstance "node-1.example.com")
      scenarioNetwork = OK cfg /\
    PlatformNetworkConfig.Routes cfg =
      [Normalize_model
         (defaultRoute (Addr6 [65152; 0; 0; 0; 0; 0; 0; 1] "") linkLocal_fe80_1)].
Proof.
  assert (Hlabel : @labelAccepted Machinery_model (scenarioInstance "node-1.example.com"))
    by (right; reflexivity).
  exact (proj1 (@ParseMetadata_default_route NetipText_model Machinery_model
                  (scenarioInstance "node-1.example.com") scenarioNetwork)
               Hlabel (Addr6 [65152; 0; 0; 0; 0; 0; 0; 1] "") eq_refl).
Defined.

Lemma ParseMetadata_addresses_witness :
  exists cfg,
    @ParseMetadata NetipText_model Machinery_model (scenarioInstance "node-1.example.com")
      scenarioNetwork = OK cfg /\
    PlatformNetworkConfig.Addresses cfg =
      [addressEntry ScopeGlobal [AddressPermanent] FamilyInet4 public_192_0_2_10;
       addressEntry ScopeGlobal [AddressPermanent] FamilyInet4 private_10_0_0_5;
       addressEntry ScopeGlobal [AddressManagementTemp] FamilyInet6 range_2001_db8_1;
       addressEntry ScopeLink [] FamilyInet6 linkLocal_fe80_1].
Proof.
  destruct (@ParseMetadata NetipText_model Machinery_model
              (scenarioInstance "node-1.example.com") scenarioNetwork) as [cfg|err] eqn:Hok.
  - exists cfg. split; [reflexivity|].
    exact (proj1 (@ParseMetadata_addresses NetipText_model Machinery_model _ _ cfg Hok)).
  - vm_compute in Hok. discriminate Hok.
Defined.

(** The zero prefix among the public ones is skipped, and the translation
    succeeds. *)
Lemma ParseMetadata_external_ips_witness :
  exists cfg,
    @ParseMetadata NetipText_model Machinery_model (scenarioInstance "")
      scenarioNetworkWithZero = OK cfg /\
    PlatformNetworkConfig.ExternalIPs cfg = [Addr4 192 0 2 10; ip range_2001_db8_1].
Proof.
  destruct (proj2 (@ParseMetadata_external_ips NetipText_model Machinery_model
                     (scenarioInstance "") scenarioNetworkWithZero)
                  (or_introl eq_refl) (Addr6 [65152; 0; 0; 0; 0; 0; 0; 1] "") eq_refl)
    as [cfg Hok].
  exists cfg. split; [exact Hok|].
  rewrite (proj1 (@ParseMetadata_external_ips NetipText_model Machinery_model
                    (scenarioInstance "") scenarioNetworkWithZero) cfg Hok).
  reflexivity.
Defined.

(** * Further properties *)

(** ** Decimal texts read back *)

Lemma append_cancel_l (s t u : string) : s ++ t = s ++ u -> t = u.
Proof.
  induction s as [|c s IH]; [trivial|].
  rewrite !append_cons. intros [= E]. exact (IH E).
Qed.

Lemma parseDecimal_zeros (k : nat) (s : string) :
  parseDecimal (zeros k ++ s) 0 = parseDecimal s 0.
Proof.
  induction k as [|k IH]; [reflexivity|].
  change (zeros (S k)) with (String "0" (zeros k)). rewrite append_cons. exact IH.
Qed.

Lemma parseDecimal_digit (d acc : Z) :
  0 <= d < 10 -> parseDecimal (String (digitChar d) "") acc = Some (acc * 10 + d).
Proof.
  intros Hd. cbn [parseDecimal].
  destruct (digitChar_value d Hd) as [-> ->]. reflexivity.
Qed.

Lemma fmtDigits_small (fuel : nat) (u : Z) :
  u < 10 -> fmtDigits fuel u "" = String (digitChar u) "".
Proof. intros Hu. destruct fuel; cbn [fmtDigits]; destruct (Z.ltb_spec u 10); try lia; reflexivity. Qed.

Lemma fmtDigits_large (fuel : nat) (u : Z) :
  10 <= u ->
  fmtDigits (S fuel) u "" = fmtDigits fuel (u / 10) "" ++ String (digitChar (u mod 10)) "".
Proof.
  intros Hu. cbn [fmtDigits]. destruct (Z.ltb_spec u 10); [lia|]. apply fmtDigits_acc.
Qed.

(** With fuel for every digit, the digit loop writes a text that reads back
    as the number. *)
Lemma parseDecimal_fmtDigits (fuel : nat) (u : Z) :
  0 <= u < 10 ^ Z.of_nat (S fuel) -> parseDecimal (fmtDigits fuel u "") 0 = Some u.
Proof.
  revert u; induction fuel as [|fuel IH]; intros u Hu.
  - change (10 ^ Z.of_nat 1) with 10 in Hu.
    rewrite fmtDigits_small, parseDecimal_digit by lia. reflexivity.
  - destruct (Z.lt_ge_cases u 10) as [Hlt|Hge].
    + rewrite fmtDigits_small, parseDecimal_digit by lia. reflexivity.
    + assert (Hdiv : 0 <= u / 10 < 10 ^ Z.of_nat (S fuel)).
      { split; [apply Z.div_pos; lia|]. apply Z.div_lt_upper_bound; [lia|].
        rewrite (Nat2Z.inj_succ (S fuel)), Z.pow_succ_r in Hu by lia. lia. }
      rewrite fmtDigits_large, parseDecimal_snoc, (IH _ Hdiv) by lia.
      destruct (digitChar_value (u mod 10)) as [-> ->]; [apply Z.mod_pos_bound; lia|].
      f_equal. pose proof (Z.div_mod u 10). lia.
Qed.

Lemma parseDecimal_utoa (u : Z) : 0 <= u -> parseDecimal (utoa u) 0 = Some u.
Proof.
  intros Hu. apply parseDecimal_fmtDigits. split; [exact Hu | now apply fmtDigits_fuel].
Qed.

Lemma parseDecimal_padZeros (prec : nat) (u : Z) :
  0 <= u -> parseDecimal (padZeros prec (utoa u)) 0 = Some u.
Proof. intros Hu. unfold padZeros. now rewrite parseDecimal_zeros, parseDecimal_utoa. Qed.

(** A text of digits is read the same with or without a sign in mind. *)
Lemma readDecimal_unsigned (s : string) (v : Z) :
  s <> "" -> parseDecimal s 0 = Some v -> readDecimal s = Some v.
Proof.
  destruct s as [|c rest]; [contradiction|]. intros _ Hp. unfold readDecimal.
  destruct (Ascii.eqb_spec c "-") as [->|Hne]; [discriminate Hp | exact Hp].
Qed.

Lemma utoa_nonempty (u : Z) : 0 <= u -> utoa u <> "".
Proof.
  intros Hu Hempty. pose proof (parseDecimal_utoa u Hu) as Hp. rewrite Hempty in Hp.
  injection Hp as <-. vm_compute in Hempty. discriminate Hempty.
Qed.

Lemma padZeros_nonempty (prec : nat) (s : string) : s <> "" -> padZeros prec s <> "".
Proof.
  intros Hs. unfold padZeros. destruct (prec - String.length s)%nat as [|k]; [exact Hs|].
  change (zeros (S k)) with (String "0" (zeros k)). rewrite append_cons. discriminate.
Qed.

Lemma readDecimal_Itoa (n : Z) : readDecimal (Itoa n) = Some n.
Proof.
  unfold Itoa. destruct (Z.ltb_spec n 0).
  - cbn [readDecimal]. change (Ascii.eqb "-" "-") with true. cbv iota.
    rewrite parseDecimal_utoa by lia. cbn [fmap option_fmap option_map]. f_equal. lia.
  - apply readDecimal_unsigned; [now apply utoa_nonempty | now apply parseDecimal_utoa].
Qed.

Lemma readDecimal_Sprintf_0d (width : nat) (n : Z) :
  readDecimal (Sprintf_0d width n) = Some n.
Proof.
  unfold Sprintf_0d. destruct (Z.ltb_spec n 0).
  - cbn [readDecimal]. change (Ascii.eqb "-" "-") with true. cbv iota.
    rewrite parseDecimal_padZeros by lia. cbn [fmap option_fmap option_map]. f_equal. lia.
  - apply readDecimal_unsigned;
      [now apply padZeros_nonempty, utoa_nonempty | now apply parseDecimal_padZeros].
Qed.

Lemma generateLinodeUUID_read (linodeID : Z) :
  exists group, generateLinodeUUID linodeID = "00000000-0000-0000-0000-" ++ group /\
                readDecimal group = Some linodeID.
Proof.
  exists (Sprintf_0d 12 linodeID). split; [reflexivity | apply readDecimal_Sprintf_0d].
Qed.

(** For an ID other than zero the derived UUID is not one the validity
    check rejects. *)
Lemma generateLinodeUUID_valid (linodeID : Z) :
  linodeID <> 0 -> isInvalidUUID (generateLinodeUUID linodeID) = false.
Proof.
  intros Hne. destruct (generateLinodeUUID_read linodeID) as (group & E & Hread).
  rewrite E. unfold isInvalidUUID.
  destruct (String.eqb_spec ("00000000-0000-0000-0000-" ++ group) "") as [He|_];
    [discriminate He|].
  destruct (String.eqb_spec ("00000000-0000-0000-0000-" ++ group)
              "00000000-0000-0000-0000-000000000000") as [Hz|_]; [|reflexivity].
  apply (append_cancel_l "00000000-0000-0000-0000-" group "000000000000") in Hz.
  subst group. vm_compute in Hread. congruence.
Qed.

(** X1. Distinct instance IDs never share a derived UUID: over all
    integers, negative ones and ones of more than twelve digits included,
    [generateLinodeUUID] is injective. *)
Theorem generateLinodeUUID_injective (id1 id2 : Z) :
  id1 <> id2 -> generateLinodeUUID id1 <> generateLinodeUUID id2.
Proof.
  intros Hne E.
  destruct (generateLinodeUUID_read id1) as (g1 & E1 & R1).
  destruct (generateLinodeUUID_read id2) as (g2 & E2 & R2).
  rewrite E1, E2 in E. apply append_cancel_l in E. subst g2. congruence.
Qed.

Lemma generateLinodeUUID_injective_witness :
  123 <> 1000000000123 /\ generateLinodeUUID 123 <> generateLinodeUUID 1000000000123.
Proof.
  assert (Hne : 123 <> 1000000000123) by lia.
  split; [exact Hne | exact (generateLinodeUUID_injective _ _ Hne)].
Defined.

(** X2. The derived UUID is rejected by the validity check for the ID zero
    and for no other ID: zero gives the all-zero UUID itself. *)
Theorem generateLinodeUUID_invalid_iff (linodeID : Z) :
  isInvalidUUID (generateLinodeUUID linodeID) = true <-> linodeID = 0.
Proof.
  split.
  - intros Hinv. destruct (Z.eq_dec linodeID 0) as [E|Hne]; [exact E|].
    rewrite (generateLinodeUUID_valid linodeID Hne) in Hinv. discriminate Hinv.
  - intros ->. reflexivity.
Qed.


(** The value of a text of digits is bounded by its length. *)
Lemma parseDecimal_bound (s : string) (acc v : Z) :
  0 <= acc -> parseDecimal s acc = Some v ->
  acc * 10 ^ Z.of_nat (String.length s) <= v < (acc + 1) * 10 ^ Z.of_nat (String.length s).
Proof.
  revert acc; induction s as [|c s IH]; intros acc Hacc.
  - cbn [parseDecimal String.length]. intros [= <-]. change (10 ^ Z.of_nat 0) with 1. lia.
  - cbn [parseDecimal String.length]. unfold isDigit.
    destruct ((48 <=? Z.of_nat (nat_of_ascii c)) && (Z.of_nat (nat_of_ascii c) <=? 57)) eqn:Hd;
      [|discriminate].
    apply andb_true_iff in Hd as [Hlo Hhi]. apply Z.leb_le in Hlo, Hhi.
    intros Hp. apply IH in Hp; [|lia].
    rewrite Nat2Z.inj_succ, Z.pow_succ_r by lia.
    assert (0 < 10 ^ Z.of_nat (String.length s)) by (apply Z.pow_pos_nonneg; lia).
    nia.
Qed.

Lemma padZeros_length (prec : nat) (s : string) :
  String.length (padZeros prec s) = Nat.max prec (String.length s).
Proof. unfold padZeros. rewrite length_append, zeros_length. lia. Qed.

(** The number of digits of [u]: no more than [w] exactly when [u < 10^w]. *)
Lemma utoa_length (w : nat) (u : Z) :
  0 <= u -> ((String.length (utoa u) <= S w)%nat <-> u < 10 ^ Z.of_nat (S w)).
Proof.
  intros Hu. split.
  - intros Hlen. pose proof (parseDecimal_bound (utoa u) 0 u (Z.le_refl 0)
                               (parseDecimal_utoa u Hu)) as [_ Hb].
    apply Z.lt_le_trans with (10 ^ Z.of_nat (String.length (utoa u))); [lia|].
    apply Z.pow_le_mono_r; lia.
  - intros Hlt.
    assert (E : padZeros (S w) (utoa u) = zeroPadded (S w) u)
      by (apply padZeros_fmtDigits; [lia | now apply fmtDigits_fuel]).
    apply (f_equal String.length) in E. rewrite padZeros_length, zeroPadded_length in E. lia.
Qed.

(** X3. The derived UUID has the 36 characters of a UUID exactly for the
    IDs above [-10^11] and below [10^12]; every other ID gives a longer
    text, and no ID a shorter one. *)
Theorem generateLinodeUUID_length (linodeID : Z) :
  (36 <= String.length (generateLinodeUUID linodeID))%nat /\
  (String.length (generateLinodeUUID linodeID) = 36%nat <->
   - 10 ^ 11 < linodeID < 10 ^ 12).
Proof.
  unfold generateLinodeUUID. rewrite length_append.
  change (String.length "00000000-0000-0000-0000-") with 24%nat.
  unfold Sprintf_0d. destruct (Z.ltb_spec linodeID 0) as [Hneg|Hpos].
  - cbn [String.length]. rewrite padZeros_length.
    pose proof (utoa_length 10 (- linodeID) ltac:(lia)) as Hlen.
    change (10 ^ Z.of_nat 11) with (10 ^ 11) in Hlen.
    split; [lia|]. split; [intros E; assert (- linodeID < 10 ^ 11) by (apply Hlen; lia); lia|].
    intros Hr. assert (String.length (utoa (- linodeID)) <= 11)%nat by (apply Hlen; lia). lia.
  - rewrite padZeros_length.
    pose proof (utoa_length 11 linodeID Hpos) as Hlen.
    change (10 ^ Z.of_nat 12) with (10 ^ 12) in Hlen.
    split; [lia|]. split; [intros E; assert (linodeID < 10 ^ 12) by (apply Hlen; lia); lia|].
    intros Hr. assert (String.length (utoa linodeID) <= 12)%nat by (apply Hlen; lia). lia.
Qed.

(** ** More on ensureValidUUID *)

Section Reconciliation.
Context `{ResourceIDs}.

(** A read fails with an error other than not-found only when the
    environment failed it. *)
Lemma answer_get_injected (env : Env) (st : Store) (t : ResourceType) (id : string)
    (err : error) :
  answer env st (Get t id) = Failed err -> IsNotFoundError err = false ->
  env (Get t id) = Some err.
Proof.
  unfold answer. destruct (env (Get t id)) as [e|]; [now intros [= ->]|].
  simpl. destruct (lookupResource st t id); simpl; intros [= <-]; discriminate.
Qed.

(** A Create fails with an error other than a conflict only when the
    environment failed it. *)
Lemma answer_create_injected (env : Env) (st : Store) (r : Resource) (err : error) :
  answer env st (Create r) = Failed err -> IsConflictError err = false ->
  env (Create r) = Some err.
Proof.
  unfold answer. destruct (env (Create r)) as [e|]; [now intros [= ->]|].
  simpl. destruct (lookupResource st (typeOf r) (idOf r)); simpl; intros [= <-]; discriminate.
Qed.

Lemma answer_get_absent (env : Env) (st : Store) (id : string) :
  env (Get MetaKeyType id) = None -> MetaKeys st !! id = None ->
  answer env st (Get MetaKeyType id) = Failed (ErrNotFound id).
Proof. intros Henv Hl. unfold answer. rewrite Henv. simpl. now rewrite Hl. Qed.

Lemma answer_get_info (env : Env) (st : Store) (id : string) :
  env (Get SystemInformationType id) = None ->
  answer env st (Get SystemInformationType id) =
  match SystemInformations st !! id with
  | Some info => Found (SystemInformation id info)
  | None => Failed (ErrNotFound id)
  end.
Proof.
  intros Henv. unfold answer. rewrite Henv. simpl.
  now destruct (SystemInformations st !! id).
Qed.

Lemma answer_create_free (env : Env) (st : Store) (id : string) (spec : MetaKeySpec) :
  env (Create (MetaKey id spec)) = None -> MetaKeys st !! id = None ->
  answer env st (Create (MetaKey id spec)) = Done.
Proof. intros Henv Hl. unfold answer. rewrite Henv. simpl. now rewrite Hl. Qed.

(** The store after a call: as before, or with the override freshly
    created under a free key by a call with a positive ID. *)
Lemma ensureValidUUID_store_cases (env : Env) (st : Store) (linodeID : Z) :
  storeOf (ensureValidUUID linodeID env st) = st \/
  (MetaKeys st !! UUIDOverrideID = None /\ 0 < linodeID /\
   storeOf (ensureValidUUID linodeID env st) =
     putResource st (MetaKey UUIDOverrideID {| Value := generateLinodeUUID linodeID |})).
Proof.
  destruct (ensureValidUUID_run env st linodeID)
    as [spec' Ha Hv | r1 err' E1 N1 E2 Hnf' | r1 r2 should cur E1 N1 E2 O2 Hgo
        | r1 r2 cur E1 N1 E2 O2 Hpos E3 Hnone | r1 r2 cur err' E1 N1 E2 O2 Hpos E3];
    cbn [storeOf fst snd]; auto.
Qed.

(** X4. The function fails only when the store failed: every error it
    returns wraps an error with which the environment failed one of its
    requests. Not-found on a read and a conflict on the Create, the store's
    own answers, are never returned. *)
Theorem ensureValidUUID_error_origin (env : Env) (st : Store) (linodeID : Z) (e : error) :
  errOf (ensureValidUUID linodeID env st) = Some e ->
  exists req cause format args,
    env req = Some cause /\
    In (req, Failed cause) (logOf (ensureValidUUID linodeID env st)) /\
    e = Errorf format args cause.
Proof.
  destruct (ensureValidUUID_run env st linodeID)
    as [spec' Ha Hv | r1 err' E1 N1 E2 Hnf' | r1 r2 should cur E1 N1 E2 O2 Hgo
        | r1 r2 cur E1 N1 E2 O2 Hpos E3 Hnone | r1 r2 cur err' E1 N1 E2 O2 Hpos E3];
    cbn [errOf logOf fst snd]; try discriminate.
  - intros [= <-]. exists readSystemInformation, err', getSystemInformationFailed, [].
    split; [exact (answer_get_injected env st _ _ err' E2 Hnf')|].
    split; [simpl; tauto | reflexivity].
  - destruct (IsConflictError err') eqn:Hc; [discriminate|].
    intros [= <-]. exists (createOverride linodeID), err', createOverrideFailed, [cur].
    split; [exact (answer_create_injected env st _ err' E3 Hc)|].
    split; [simpl; tauto | reflexivity].
Qed.

(** Against a store that answers every request the function never fails,
    whatever the store holds and whatever the ID. *)
Corollary ensureValidUUID_reliable (st : Store) (linodeID : Z) :
  errOf (ensureValidUUID linodeID reliable st) = None.
Proof.
  destruct (ensureValidUUID_run reliable st linodeID)
    as [spec' Ha Hv | r1 err' E1 N1 E2 Hnf' | r1 r2 should cur E1 N1 E2 O2 Hgo
        | r1 r2 cur E1 N1 E2 O2 Hpos E3 Hnone | r1 r2 cur err' E1 N1 E2 O2 Hpos E3];
    cbn [errOf fst]; try reflexivity.
  - pose proof (answer_get_injected reliable st _ _ err' E2 Hnf') as Hi. discriminate Hi.
  - destruct (IsConflictError err') eqn:Hc; [reflexivity|].
    pose proof (answer_create_injected reliable st _ err' E3 Hc) as Hi. discriminate Hi.
Qed.

(** X5. The override is created: when no override record exists, the
    hardware UUID is empty, all-zero or not available, the ID is positive
    and the three requests reach the store, the call succeeds and the store
    then holds the override with the UUID derived from the ID, everything
    else being as before. *)
Theorem ensureValidUUID_creates (env : Env) (st : Store) (linodeID : Z) :
  env readOverride = None ->
  env readSystemInformation = None ->
  env (createOverride linodeID) = None ->
  MetaKeys st !! UUIDOverrideID = None ->
  match SystemInformations st !! SystemInformationID with
  | Some info => isInvalidUUID (UUID info) = true
  | None => True
  end ->
  0 < linodeID ->
  errOf (ensureValidUUID linodeID env st) = None /\
  storeOf (ensureValidUUID linodeID env st) =
    {| MetaKeys := <[UUIDOverrideID := {| Value := generateLinodeUUID linodeID |}]> (MetaKeys st);
       SystemInformations := SystemInformations st |} /\
  MetaKeys (storeOf (ensureValidUUID linodeID env st)) !! UUIDOverrideID =
    Some {| Value := generateLinodeUUID linodeID |}.
Proof.
  intros Henv1 Henv2 Henv3 Hfree Hinvalid Hpos.
  pose proof (answer_get_absent env st _ Henv1 Hfree) as A1.
  pose proof (answer_get_info env st _ Henv2) as A2.
  pose proof (answer_create_free env st _ {| Value := generateLinodeUUID linodeID |}
                Henv3 Hfree) as A3.
  fold readOverride in A1. fold readSystemInformation in A2.
  fold (createOverride linodeID) in A3.
  destruct (ensureValidUUID_run env st linodeID)
    as [spec' Ha Hv | r1 err' E1 N1 E2 Hnf' | r1 r2 should cur E1 N1 E2 O2 Hgo
        | r1 r2 cur E1 N1 E2 O2 Hpos' E3 Hnone | r1 r2 cur err' E1 N1 E2 O2 Hpos' E3];
    cbn [errOf storeOf fst snd].
  - congruence.
  - rewrite A2 in E2. destruct (SystemInformations st !! SystemInformationID);
      [discriminate E2 | injection E2 as <-; discriminate Hnf'].
  - rewrite A2 in E2. apply Z.ltb_lt in Hpos. rewrite Hpos, andb_true_r in Hgo. subst should.
    destruct (SystemInformations st !! SystemInformationID) as [info|]; subst r2;
      inversion O2; congruence.
  - split; [reflexivity|]. split; [reflexivity|]. cbn [putResource MetaKeys].
    apply lookup_insert_eq.
  - congruence.
Qed.

(** X6. A valid hardware UUID is left alone: when the system information
    is read from the store and holds a UUID that is neither empty nor
    all-zero, the call issues no write, leaves the store as it was and
    succeeds, for every ID. *)
Theorem ensureValidUUID_valid_hardware_uuid (env : Env) (st : Store) (linodeID : Z)
    (info : SystemInformationSpec) :
  env readSystemInformation = None ->
  SystemInformations st !! SystemInformationID = Some info ->
  isInvalidUUID (UUID info) = false ->
  errOf (ensureValidUUID linodeID env st) = None /\
  writes (logOf (ensureValidUUID linodeID env st)) = [] /\
  storeOf (ensureValidUUID linodeID env st) = st.
Proof.
  intros Henv Hl Hvalid.
  pose proof (answer_get_info env st _ Henv) as A2. rewrite Hl in A2.
  fold readSystemInformation in A2.
  destruct (ensureValidUUID_run env st linodeID)
    as [spec' Ha Hv | r1 err' E1 N1 E2 Hnf' | r1 r2 should cur E1 N1 E2 O2 Hgo
        | r1 r2 cur E1 N1 E2 O2 Hpos E3 Hnone | r1 r2 cur err' E1 N1 E2 O2 Hpos E3];
    cbn [errOf storeOf logOf fst snd].
  - repeat split; reflexivity.
  - congruence.
  - repeat split; reflexivity.
  - rewrite A2 in E2. subst r2. inversion O2. congruence.
  - rewrite A2 in E2. subst r2. inversion O2. congruence.
Qed.

End Reconciliation.

Lemma ensureValidUUID_error_origin_witness :
  exists req cause format args,
    failCreates deadlineExceeded req = Some cause /\
    In (req, Failed cause)
       (logOf (@ensureValidUUID ResourceIDs_model 79475478 (failCreates deadlineExceeded)
                 (storeOfOptions None (Some zeroUUID)))) /\
    Errorf createOverrideFailed [zeroUUID] deadlineExceeded = Errorf format args cause.
Proof.
  apply (@ensureValidUUID_error_origin ResourceIDs_model (failCreates deadlineExceeded)
           (storeOfOptions None (Some zeroUUID)) 79475478).
  vm_compute. reflexivity.
Defined.

Lemma ensureValidUUID_creates_witness :
  let st := storeOfOptions None None in
  errOf (@ensureValidUUID ResourceIDs_model 12345 reliable st) = None /\
  MetaKeys (storeOf (@ensureValidUUID ResourceIDs_model 12345 reliable st)) !! "0x0e" =
    Some {| Value := "00000000-0000-0000-0000-000000012345" |}.
Proof.
  intros st.
  destruct (@ensureValidUUID_creates ResourceIDs_model reliable st 12345
              eq_refl eq_refl eq_refl eq_refl I ltac:(lia)) as (Herr & _ & Hv).
  split; [exact Herr | exact Hv].
Defined.

Lemma ensureValidUUID_valid_hardware_uuid_witness :
  let st := storeOfOptions None (Some "550e8400-e29b-41d4-a716-446655440000") in
  errOf (@ensureValidUUID ResourceIDs_model 79475478 reliable st) = None /\
  storeOf (@ensureValidUUID ResourceIDs_model 79475478 reliable st) = st.
Proof.
  intros st.
  destruct (@ensureValidUUID_valid_hardware_uuid ResourceIDs_model reliable st 79475478
              {| UUID := "550e8400-e29b-41d4-a716-446655440000" |}
              eq_refl eq_refl eq_refl) as (Herr & _ & Hst).
  split; [exact Herr | exact Hst].
Defined.


(** ** Series of calls *)

Section Lifetime.
Context `{ResourceIDs}.

(** One call on a store that holds an override record, whatever its value. *)
Lemma ensureValidUUID_frozen (env : Env) (st : Store) (linodeID : Z) :
  is_Some (MetaKeys st !! UUIDOverrideID) ->
  storeOf (ensureValidUUID linodeID env st) = st.
Proof.
  intros [spec Hl].
  destruct (ensureValidUUID_store_cases env st linodeID) as [E|(Hnone & _)];
    [exact E | congruence].
Qed.

Lemma putResource_override (st : Store) (spec : MetaKeySpec) :
  MetaKeys (putResource st (MetaKey UUIDOverrideID spec)) !! UUIDOverrideID = Some spec.
Proof. cbn [putResource MetaKeys]. apply lookup_insert_eq. Qed.

Lemma reconcileAll_stable (calls : list (Z * Env)) (st : Store) :
  is_Some (MetaKeys st !! UUIDOverrideID) -> reconcileAll calls st = st.
Proof.
  intros Hsome. induction calls as [|[linodeID env] calls IH]; [reflexivity|].
  cbn [reconcileAll]. rewrite (ensureValidUUID_frozen env st linodeID Hsome). exact IH.
Qed.

(** X7. Write-once over a lifetime: once an override record exists,
    whatever its value, no series of calls changes the store, whatever their
    IDs and whatever fails in between. *)
Theorem reconcileAll_frozen (calls : list (Z * Env)) (st : Store) (spec : MetaKeySpec) :
  MetaKeys st !! UUIDOverrideID = Some spec ->
  reconcileAll calls st = st /\
  MetaKeys (reconcileAll calls st) !! UUIDOverrideID = Some spec.
Proof.
  intros Hl. assert (E : reconcileAll calls st = st) by (apply reconcileAll_stable; eauto).
  rewrite E. split; [reflexivity | exact Hl].
Qed.

(** X8. At most one override is ever committed: after any series of calls
    the store is the one before, or the one before plus a single override
    under the key that was free, whose value is the UUID derived from the
    positive ID of one of the calls, a value the validity check accepts. *)
Theorem reconcileAll_commits_once (calls : list (Z * Env)) (st : Store) :
  reconcileAll calls st = st \/
  (MetaKeys st !! UUIDOverrideID = None /\
   exists linodeID env,
     In (linodeID, env) calls /\ 0 < linodeID /\
     isInvalidUUID (generateLinodeUUID linodeID) = false /\
     reconcileAll calls st =
       putResource st (MetaKey UUIDOverrideID {| Value := generateLinodeUUID linodeID |})).
Proof.
  revert st. induction calls as [|[linodeID env] calls IH]; intros st; [left; reflexivity|].
  cbn [reconcileAll].
  destruct (ensureValidUUID_store_cases env st linodeID) as [E|(Hnone & Hpos & E)]; rewrite E.
  - destruct (IH st) as [Hsame|(Hnone & id & env' & Hin & Hpos & Hvalid & Hput)].
    + left. exact Hsame.
    + right. split; [exact Hnone|]. exists id, env'. repeat split; auto. now right.
  - right. split; [exact Hnone|]. exists linodeID, env.
    split; [now left|]. split; [exact Hpos|].
    split; [apply generateLinodeUUID_valid; lia|].
    apply reconcileAll_stable. rewrite putResource_override. eauto.
Qed.

(** X9. Idempotence: a second call with the same ID in the same
    environment leaves the store of the first call. *)
Theorem ensureValidUUID_idempotent (env : Env) (st : Store) (linodeID : Z) :
  storeOf (ensureValidUUID linodeID env (storeOf (ensureValidUUID linodeID env st))) =
  storeOf (ensureValidUUID linodeID env st).
Proof.
  destruct (ensureValidUUID_store_cases env st linodeID) as [E|(Hnone & Hpos & E)].
  - rewrite E. exact E.
  - rewrite E. apply ensureValidUUID_frozen. rewrite putResource_override. eauto.
Qed.

(** X10. A call issues at most three requests and always in this order:
    the read of the override first, then the read of the system
    information, then the Create of the override. No Create is ever issued
    before both reads were made. *)
Theorem ensureValidUUID_request_order (env : Env) (st : Store) (linodeID : Z) :
  exists rest,
    (map fst (logOf (ensureValidUUID linodeID env st)) ++ rest)%list =
      [readOverride; readSystemInformation; createOverride linodeID] /\
    (length rest < 3)%nat.
Proof.
  destruct (ensureValidUUID_run env st linodeID)
    as [spec' Ha Hv | r1 err' E1 N1 E2 Hnf' | r1 r2 should cur E1 N1 E2 O2 Hgo
        | r1 r2 cur E1 N1 E2 O2 Hpos E3 Hnone | r1 r2 cur err' E1 N1 E2 O2 Hpos E3];
    cbn [logOf snd map fst].
  - exists [readSystemInformation; createOverride linodeID]. split; [reflexivity | simpl; lia].
  - exists [createOverride linodeID]. split; [reflexivity | simpl; lia].
  - exists [createOverride linodeID]. split; [reflexivity | simpl; lia].
  - exists []. split; [reflexivity | simpl; lia].
  - exists []. split; [reflexivity | simpl; lia].
Qed.
End Lifetime.

Lemma reconcileAll_frozen_witness :
  let st := storeOfOptions (Some "existing-uuid-should-not-change") (Some zeroUUID) in
  @reconcileAll ResourceIDs_model
    [(79475478, reliable); (12345, failMetaKeyReads deadlineExceeded); (1, reliable)] st = st.
Proof.
  intros st.
  assert (Hl : MetaKeys st !! (@UUIDOverrideID ResourceIDs_model) =
               Some {| Value := "existing-uuid-should-not-change" |})
    by (vm_compute; reflexivity).
  exact (proj1 (@reconcileAll_frozen ResourceIDs_model _ st _ Hl)).
Defined.

(** ** More on ParseMetadata *)

Section TranslationMore.
Context `{NetipText} `{Machinery}.

Lemma parseHostname_cases (label : string) :
  parseHostname label =
  if String.eqb label "" then OK []
  else match (ParseFQDN blankHostname label).2 with
       | Some err => Err err
       | None => OK [(ParseFQDN blankHostname label).1]
       end.
Proof.
  unfold parseHostname, blankHostname.
  destruct (String.eqb label ""); simpl; [reflexivity|].
  now destruct (ParseFQDN _ label) as [spec [err|]].
Qed.

(** X11. When the translation fails and when it succeeds. A label that
    [ParseFQDN] rejects fails it with that very error, whatever the network
    data; with an accepted label, a gateway text that does not parse fails
    it with the error of [ParseAddr], unwrapped; and it succeeds exactly
    when the label is accepted and the gateway text parses: nothing else in
    the input can make it fail. *)
Theorem ParseMetadata_result (metadata : InstanceData.t) (interfaceAddresses : NetworkData.t) :
  let linkLocal := IPv6Data.LinkLocal (NetworkData.IPv6 interfaceAddresses) in
  (forall err : error,
     InstanceData.Label metadata <> "" ->
     (ParseFQDN blankHostname (InstanceData.Label metadata)).2 = Some err ->
     ParseMetadata metadata interfaceAddresses = Err err) /\
  (forall err : error,
     labelAccepted metadata ->
     ParseAddr (gatewayText linkLocal) = Err err ->
     ParseMetadata metadata interfaceAddresses = Err err) /\
  ((exists cfg, ParseMetadata metadata interfaceAddresses = OK cfg) <->
   labelAccepted metadata /\ exists ipv6gw, ParseAddr (gatewayText linkLocal) = OK ipv6gw).
Proof.
  intros linkLocal. unfold ParseMetadata, labelAccepted. fold linkLocal. fold blankHostname.
  rewrite parseHostname_cases.
  destruct (String.eqb_spec (InstanceData.Label metadata) "") as [Hempty|Hlabel].
  - split; [intros err Hne; contradiction|].
    split.
    + intros err _ Hgw. now rewrite Hgw.
    + destruct (ParseAddr (gatewayText linkLocal)) as [gw|e].
      * split; [intros _; split; [now left | eauto] | intros _; eauto].
      * split; [intros [cfg Hc]; discriminate Hc | intros (_ & gw & Hgw); discriminate Hgw].
  - destruct (ParseFQDN blankHostname (InstanceData.Label metadata)) as [spec [err|]];
      cbn [fst snd].
    + split; [now intros err' _ [= <-]|].
      split; [intros err' [Hl|Hl]; [contradiction | discriminate Hl]|].
      split; [intros [cfg Hc]; discriminate Hc|].
      intros ([Hl|Hl] & _); [contradiction | discriminate Hl].
    + split; [intros err' _ Hr; discriminate Hr|].
      split.
      * intros err _ Hgw. now rewrite Hgw.
      * destruct (ParseAddr (gatewayText linkLocal)) as [gw|e].
        -- split; [intros _; split; [now right | eauto] | intros _; eauto].
        -- split; [intros [cfg Hc]; discriminate Hc | intros (_ & gw & Hgw); discriminate Hgw].
Qed.

(** The fields of a returned config that the address and route loops do not
    fill. *)
Lemma ParseMetadata_OK_rest (metadata : InstanceData.t) (interfaceAddresses : NetworkData.t)
    (cfg : PlatformNetworkConfig.t) :
  ParseMetadata metadata interfaceAddresses = OK cfg ->
  parseHostname (InstanceData.Label metadata) = OK (PlatformNetworkConfig.Hostnames cfg) /\
  PlatformNetworkConfig.Metadata cfg =
    Some {| PlatformMetadataSpec.Platform := "akamai";
            PlatformMetadataSpec.Hostname := InstanceData.Label metadata;
            PlatformMetadataSpec.Region := InstanceData.Region metadata;
            PlatformMetadataSpec.InstanceType := InstanceData.InstanceType metadata;
            PlatformMetadataSpec.InstanceID := Itoa (InstanceData.ID metadata);
            PlatformMetadataSpec.ProviderID := "linode://" ++ Itoa (InstanceData.ID metadata) |}.
Proof.
  unfold ParseMetadata.
  destruct (parseHostname (InstanceData.Label metadata)) as [hostnames|err]; [|discriminate].
  destruct (ParseAddr _) as [gw|err]; [|discriminate].
  intros [= <-]. split; reflexivity.
Qed.

(** X12. Hostnames: in every config the translation returns there is no
    hostname entry when the label is empty ([ParseFQDN] is not consulted at
    all), and exactly one, the receiver as [ParseFQDN] filled it, when the
    label is not empty. *)
Theorem ParseMetadata_hostnames (metadata : InstanceData.t)
    (interfaceAddresses : NetworkData.t) (cfg : PlatformNetworkConfig.t) :
  ParseMetadata metadata interfaceAddresses = OK cfg ->
  (InstanceData.Label metadata = "" -> PlatformNetworkConfig.Hostnames cfg = []) /\
  (InstanceData.Label metadata <> "" ->
   PlatformNetworkConfig.Hostnames cfg =
     [(ParseFQDN blankHostname (InstanceData.Label metadata)).1] /\
   (ParseFQDN blankHostname (InstanceData.Label metadata)).2 = None).
Proof.
  intros Hok. destruct (ParseMetadata_OK_rest metadata interfaceAddresses cfg Hok) as [Hh _].
  rewrite parseHostname_cases in Hh.
  destruct (String.eqb_spec (InstanceData.Label metadata) "") as [Hempty|Hlabel].
  - injection Hh as <-. split; [reflexivity | intros Hne; contradiction].
  - split; [intros He; contradiction|]. intros _.
    destruct (ParseFQDN blankHostname (InstanceData.Label metadata)) as [spec [err|]];
      cbn [fst snd] in *; [discriminate Hh|].
    injection Hh as <-. split; reflexivity.
Qed.

(** X13. The metadata summary of every returned config is present, names
    the platform as [Name] does, repeats label, region and type, and
    identifies the instance: the instance ID is decimal text that reads back
    as the ID, for negative IDs too, and the provider ID is [linode://]
    followed by that text. *)
Theorem ParseMetadata_summary (metadata : InstanceData.t)
    (interfaceAddresses : NetworkData.t) (cfg : PlatformNetworkConfig.t) :
  ParseMetadata metadata interfaceAddresses = OK cfg ->
  exists summary,
    PlatformNetworkConfig.Metadata cfg = Some summary /\
    PlatformMetadataSpec.Platform summary = Name /\
    PlatformMetadataSpec.Hostname summary = InstanceData.Label metadata /\
    PlatformMetadataSpec.Region summary = InstanceData.Region metadata /\
    PlatformMetadataSpec.InstanceType summary = InstanceData.InstanceType metadata /\
    readDecimal (PlatformMetadataSpec.InstanceID summary) = Some (InstanceData.ID metadata) /\
    PlatformMetadataSpec.ProviderID summary =
      "linode://" ++ PlatformMetadataSpec.InstanceID summary.
Proof.
  intros Hok. destruct (ParseMetadata_OK_rest metadata interfaceAddresses cfg Hok) as [_ Hm].
  eexists. split; [exact Hm|]. cbn.
  repeat (split; [reflexivity|]). split; [apply readDecimal_Itoa | reflexivity].
Qed.

Lemma bareAddress_length (l : list Prefix) :
  (length (flat_map bareAddress l) <= length l)%nat.
Proof.
  induction l as [|p l IH]; simpl; [lia|].
  rewrite length_app. unfold bareAddress at 1.
  destruct (ParseAddr (textOf p)); simpl; lia.
Qed.

Lemma bareAddress_exact (l : list Prefix) :
  (forall prefix, In prefix l ->
     ParseAddr (Addr_String (Prefix_Addr prefix)) = OK (Prefix_Addr prefix)) ->
  flat_map bareAddress l = map Prefix_Addr l.
Proof.
  intros Hrt. induction l as [|p l IH]; [reflexivity|].
  simpl. unfold bareAddress at 1, textOf. rewrite (Hrt p) by now left.
  simpl. f_equal. apply IH. intros q Hq. apply Hrt. now right.
Qed.

(** X14. External IPs against a netip whose texts read back: the list
    never has more entries than there are public prefixes and ranges, and
    when the text of every public and range address parses back to the
    address, it is exactly those addresses, in order, none skipped. *)
Theorem ParseMetadata_external_ips_exact (metadata : InstanceData.t)
    (interfaceAddresses : NetworkData.t) (cfg : PlatformNetworkConfig.t) :
  let public := IPv4Data.Public (NetworkData.IPv4 interfaceAddresses) in
  let ranges := IPv6Data.Ranges (NetworkData.IPv6 interfaceAddresses) in
  ParseMetadata metadata interfaceAddresses = OK cfg ->
  (length (PlatformNetworkConfig.ExternalIPs cfg) <= length public + length ranges)%nat /\
  ((forall prefix, In prefix (public ++ ranges)%list ->
      ParseAddr (Addr_String (Prefix_Addr prefix)) = OK (Prefix_Addr prefix)) ->
   PlatformNetworkConfig.ExternalIPs cfg = map Prefix_Addr (public ++ ranges)%list).
Proof.
  intros public ranges Hok.
  destruct (ParseMetadata_OK metadata interfaceAddresses cfg Hok) as (gw & _ & _ & _ & Hext).
  fold public ranges in Hext. rewrite Hext, <- flat_map_app. split.
  - pose proof (bareAddress_length (public ++ ranges)%list) as Hlen.
    rewrite length_app in Hlen. exact Hlen.
  - apply bareAddress_exact.
Qed.

(** X15. The gateway text: it is always some text without a colon
    followed by [::1], that text being the whole text of the link-local
    prefix when it holds no colon (as for an IPv4 or an invalid prefix), and
    else what stands before its first colon. Nothing after the first colon,
    the prefix length included, reaches the gateway. *)
Theorem gatewayText_shape (linkLocal : Prefix) :
  exists first,
    gatewayText linkLocal = first ++ "::1" /\
    contains first ":" = false /\
    (Prefix_String linkLocal = first \/
     exists rest, Prefix_String linkLocal = first ++ String ":" rest).
Proof.
  unfold gatewayText.
  pose proof (Join_Split (Prefix_String linkLocal) ":") as Hjoin.
  pose proof (Split_segments (Prefix_String linkLocal) ":") as Hsegs.
  pose proof (Split_nonempty (Prefix_String linkLocal) ":") as Hne.
  destruct (Split (Prefix_String linkLocal) ":") as [|first segs]; [contradiction|].
  exists first. split; [reflexivity|].
  inversion Hsegs as [|? ? Hfirst _]; subst. split; [exact Hfirst|].
  destruct segs as [|seg segs]; [left; now rewrite <- Hjoin|].
  right. exists (Join (seg :: segs) ":"). now rewrite <- Hjoin.
Qed.
End TranslationMore.

Lemma ParseMetadata_hostnames_witness :
  exists cfg,
    @ParseMetadata NetipText_model Machinery_model (scenarioInstance "") scenarioNetwork = OK cfg /\
    PlatformNetworkConfig.Hostnames cfg = [].
Proof.
  destruct (@ParseMetadata NetipText_model Machinery_model (scenarioInstance "") scenarioNetwork)
    as [cfg|err] eqn:Hok.
  - exists cfg. split; [reflexivity|].
    exact (proj1 (@ParseMetadata_hostnames NetipText_model Machinery_model _ _ cfg Hok) eq_refl).
  - vm_compute in Hok. discriminate Hok.
Defined.

Lemma ParseMetadata_summary_witness :
  exists cfg summary,
    @ParseMetadata NetipText_model Machinery_model (scenarioInstance "node-1.example.com")
      scenarioNetwork = OK cfg /\
    PlatformNetworkConfig.Metadata cfg = Some summary /\
    readDecimal (PlatformMetadataSpec.InstanceID summary) = Some 79475478.
Proof.
  destruct (@ParseMetadata NetipText_model Machinery_model
              (scenarioInstance "node-1.example.com") scenarioNetwork) as [cfg|err] eqn:Hok.
  - destruct (@ParseMetadata_summary NetipText_model Machinery_model _ _ cfg Hok)
      as (summary & Hm & _ & _ & _ & _ & Hid & _).
    exists cfg, summary. split; [reflexivity|]. split; [exact Hm | exact Hid].
  - vm_compute in Hok. discriminate Hok.
Defined.

Lemma ParseMetadata_external_ips_exact_witness :
  exists cfg,
    @ParseMetadata NetipText_model Machinery_model (scenarioInstance "") scenarioNetwork = OK cfg /\
    PlatformNetworkConfig.ExternalIPs cfg = [Addr4 192 0 2 10; ip range_2001_db8_1].
Proof.
  destruct (@ParseMetadata NetipText_model Machinery_model (scenarioInstance "") scenarioNetwork)
    as [cfg|err] eqn:Hok.
  - exists cfg. split; [reflexivity|].
    apply (proj2 (@ParseMetadata_external_ips_exact NetipText_model Machinery_model _ _ cfg Hok)).
    intros prefix [<-|[<-|[]]]; vm_compute; reflexivity.
  - vm_compute in Hok. discriminate Hok.
Defined.

(** ** Configuration and NetworkConfiguration *)

Section Platform.
Context `{ResourceIDs} `{NetipText} `{Machinery} `{PlatformErrors}.

Lemma writes_app (log1 log2 : Log) :
  writes (log1 ++ log2)%list = (writes log1 ++ writes log2)%list.
Proof. unfold writes. now rewrite map_app, List.filter_app. Qed.

(** The writes of one call of ensureValidUUID. *)
Lemma ensureValidUUID_writes_cases (env : Env) (st : Store) (linodeID : Z) :
  writes (logOf (ensureValidUUID linodeID env st)) = [] \/
  writes (logOf (ensureValidUUID linodeID env st)) = [createOverride linodeID].
Proof.
  destruct (ensureValidUUID_run env st linodeID)
    as [spec' Ha Hv | r1 err' E1 N1 E2 Hnf' | r1 r2 should cur E1 N1 E2 O2 Hgo
        | r1 r2 cur E1 N1 E2 O2 Hpos E3 Hnone | r1 r2 cur err' E1 N1 E2 O2 Hpos E3];
    cbn [logOf snd]; (left; reflexivity) || (right; reflexivity).
Qed.

(** Configuration after the wait: it issues no request of its own. *)
Lemma Configuration_after_wait (c : Collaborators) (env : Env) (st : Store) :
  Configuration c env st =
  (match errOf (Wait c env st) with
   | Some err => Err err
   | None =>
       match NewClient c with
       | Some err => Err (Errorf "new metadata client: %w" [] err)
       | None =>
           match GetUserData c with
           | Err err => Err (Errorf "get user data: %w" [] err)
           | OK userData =>
               if String.eqb userData "" then Err ErrNoConfigSource else OK userData
           end
       end
   end,
   storeOf (Wait c env st), logOf (Wait c env st)).
Proof.
  unfold Configuration, mbind, M_bind, bind.
  destruct (Wait c env st) as [[waited st0] log0]. cbn [errOf storeOf logOf fst snd].
  destruct waited as [err|]; [cbv [ret]; now rewrite app_nil_r|].
  destruct (NewClient c) as [err|]; [cbv [ret]; now rewrite app_nil_r|].
  destruct (GetUserData c) as [userData|err]; [|cbv [ret]; now rewrite app_nil_r].
  destruct (String.eqb userData ""); cbv [ret]; now rewrite app_nil_r.
Qed.

(** X16. Configuration returns user data exactly when the wait, the
    client and the fetch succeed and the user data is not empty; so a
    successful call never returns an empty configuration, and empty user
    data is reported as [ErrNoConfigSource], unwrapped. Whatever it
    returns, the store and the requests are those of the wait: the function
    issues no request of its own. *)
Theorem Configuration_result (c : Collaborators) (env : Env) (st : Store) (data : string) :
  (errOf (Configuration c env st) = OK data <->
   errOf (Wait c env st) = None /\ NewClient c = None /\
   GetUserData c = OK data /\ data <> "") /\
  (errOf (Wait c env st) = None -> NewClient c = None -> GetUserData c = OK "" ->
   errOf (Configuration c env st) = Err ErrNoConfigSource) /\
  storeOf (Configuration c env st) = storeOf (Wait c env st) /\
  logOf (Configuration c env st) = logOf (Wait c env st).
Proof.
  rewrite Configuration_after_wait. cbn [errOf storeOf logOf fst snd].
  split; [|split; [|split; reflexivity]].
  - destruct (errOf (Wait c env st)) as [e|];
      [split; [discriminate | intros (Hw & _); discriminate Hw]|].
    destruct (NewClient c) as [e|];
      [split; [discriminate | intros (_ & Hn & _); discriminate Hn]|].
    destruct (GetUserData c) as [userData|e];
      [|split; [discriminate | intros (_ & _ & Hu & _); discriminate Hu]].
    destruct (String.eqb_spec userData "") as [->|Hne].
    + split; [discriminate | intros (_ & _ & [= <-] & Hd); contradiction].
    + split; [intros [= <-]; auto | intros (_ & _ & [= <-] & _); reflexivity].
  - intros -> -> ->. reflexivity.
Qed.

(** NetworkConfiguration once the instance data is fetched: the wait, then
    ensureValidUUID with the fetched ID on the store the wait left. *)
Lemma NetworkConfiguration_fetched (c : Collaborators) (env : Env) (st : Store)
    (metadata : InstanceData.t) :
  errOf (Wait c env st) = None -> NewClient c = None -> GetInstance c = OK metadata ->
  NetworkConfiguration c env st =
  (match errOf (ensureValidUUID (InstanceData.ID metadata) env (storeOf (Wait c env st))) with
   | Some err => (Some (Errorf "failed to ensure valid UUID: %w" [] err), [])
   | None =>
       match GetNetwork c with
       | Err err => (Some (Errorf "get network data: %w" [] err), [])
       | OK metadataNetworkConfig =>
           match ParseMetadata metadata metadataNetworkConfig with
           | Err err => (Some (Errorf "parse metadata: %w" [] err), [])
           | OK networkConfig =>
               match Handoff c with
               | None => (None, [networkConfig])
               | Some err => (Some err, [])
               end
           end
       end
   end,
   storeOf (ensureValidUUID (InstanceData.ID metadata) env (storeOf (Wait c env st))),
   (logOf (Wait c env st) ++
    logOf (ensureValidUUID (InstanceData.ID metadata) env (storeOf (Wait c env st))))%list).
Proof.
  unfold NetworkConfiguration, mbind, M_bind. unfold bind at 1.
  destruct (Wait c env st) as [[waited st0] log0]. cbn [errOf storeOf logOf fst snd].
  intros -> -> ->. unfold bind.
  destruct (ensureValidUUID (InstanceData.ID metadata) env st0) as [[res st'] log].
  cbn [fst snd].
  destruct res as [err|]; [cbv [ret]; now rewrite app_nil_r|].
  destruct (GetNetwork c) as [net|err]; [|cbv [ret]; now rewrite app_nil_r].
  destruct (ParseMetadata metadata net) as [cfg|err]; [|cbv [ret]; now rewrite app_nil_r].
  destruct (Handoff c); cbv [ret]; now rewrite app_nil_r.
Qed.

(** NetworkConfiguration when the instance data is not fetched: only the
    wait touched the store. *)
Lemma NetworkConfiguration_not_fetched (c : Collaborators) (env : Env) (st : Store) :
  (errOf (Wait c env st) <> None \/ NewClient c <> None \/
   exists err, GetInstance c = Err err) ->
  exists err,
    NetworkConfiguration c env st =
    (Some err, [], storeOf (Wait c env st), logOf (Wait c env st)).
Proof.
  unfold NetworkConfiguration, mbind, M_bind, bind.
  destruct (Wait c env st) as [[waited st0] log0]. cbn [errOf storeOf logOf fst snd].
  intros Hfail.
  destruct waited as [e|]; [eexists; cbv [ret]; now rewrite app_nil_r|].
  destruct (NewClient c) as [e|]; [eexists; cbv [ret]; now rewrite app_nil_r|].
  destruct (GetInstance c) as [metadata|e]; [|eexists; cbv [ret]; now rewrite app_nil_r].
  destruct Hfail as [Hf|[Hf|[e Hf]]]; [contradiction | contradiction | discriminate Hf].
Qed.

(** X17. Hand-off: a call puts a config on the channel exactly when it
    returns nil, and never more than one. The config handed off is the
    translation of the instance and network data fetched in that call, and
    it is handed off only after the wait, the client, both fetches, the
    UUID reconciliation (on the store the wait left) and the translation
    succeeded and the consumer took it before the context was done. *)
Theorem NetworkConfiguration_handoff (c : Collaborators) (env : Env) (st : Store) :
  let r := NetworkConfiguration c env st in
  ((errOf r).1 = None <-> (errOf r).2 <> []) /\
  (length (errOf r).2 <= 1)%nat /\
  (forall cfg : PlatformNetworkConfig.t,
     In cfg (errOf r).2 <->
     exists metadata metadataNetworkConfig,
       errOf (Wait c env st) = None /\ NewClient c = None /\
       GetInstance c = OK metadata /\
       errOf (ensureValidUUID (InstanceData.ID metadata) env (storeOf (Wait c env st))) = None /\
       GetNetwork c = OK metadataNetworkConfig /\
       ParseMetadata metadata metadataNetworkConfig = OK cfg /\
       Handoff c = None).
Proof.
  intros r. subst r.
  destruct (errOf (Wait c env st)) as [e|] eqn:Hw.
  { destruct (NetworkConfiguration_not_fetched c env st) as [err ->];
      [left; rewrite Hw; discriminate|]. cbn [errOf fst snd].
    split; [split; [discriminate | intros Hne; now contradiction Hne]|].
    split; [simpl; lia|]. intros cfg. split; [intros []|].
    intros (m & n & Hw' & _). discriminate Hw'. }
  destruct (NewClient c) as [e|] eqn:Hn.
  { destruct (NetworkConfiguration_not_fetched c env st) as [err ->];
      [right; left; rewrite Hn; discriminate|]. cbn [errOf fst snd].
    split; [split; [discriminate | intros Hne; now contradiction Hne]|].
    split; [simpl; lia|]. intros cfg. split; [intros []|].
    intros (m & n & _ & Hn' & _). discriminate Hn'. }
  destruct (GetInstance c) as [metadata|e] eqn:Hi.
  2:{ destruct (NetworkConfiguration_not_fetched c env st) as [err ->];
        [right; right; eauto|]. cbn [errOf fst snd].
      split; [split; [discriminate | intros Hne; now contradiction Hne]|].
      split; [simpl; lia|]. intros cfg. split; [intros []|].
      intros (m & n & _ & _ & Hi' & _). discriminate Hi'. }
  rewrite (NetworkConfiguration_fetched c env st metadata Hw Hn Hi). cbn [errOf fst snd].
  destruct (errOf (ensureValidUUID (InstanceData.ID metadata) env (storeOf (Wait c env st))))
    as [err|] eqn:Hu.
  { cbn [fst snd]. split; [split; [discriminate | intros Hne; now contradiction Hne]|].
    split; [simpl; lia|]. intros cfg. split; [intros []|].
    intros (m & n & _ & _ & [= <-] & Hu' & _). congruence. }
  destruct (GetNetwork c) as [net|err] eqn:Hg.
  2:{ cbn [fst snd]. split; [split; [discriminate | intros Hne; now contradiction Hne]|].
      split; [simpl; lia|]. intros cfg. split; [intros []|].
      intros (m & n & _ & _ & _ & _ & Hg' & _). discriminate Hg'. }
  destruct (ParseMetadata metadata net) as [cfg0|err] eqn:Hp.
  2:{ cbn [fst snd]. split; [split; [discriminate | intros Hne; now contradiction Hne]|].
      split; [simpl; lia|]. intros cfg. split; [intros []|].
      intros (m & n & _ & _ & [= <-] & _ & [= <-] & Hp' & _). congruence. }
  destruct (Handoff c) as [err|] eqn:Hh.
  { cbn [fst snd]. split; [split; [discriminate | intros Hne; now contradiction Hne]|].
    split; [simpl; lia|]. intros cfg. split; [intros []|].
    intros (m & n & _ & _ & _ & _ & _ & _ & Hh'). discriminate Hh'. }
  cbn [fst snd]. split; [split; [discriminate | reflexivity]|].
  split; [simpl; lia|]. intros cfg. split.
  - intros [<-|[]]. exists metadata, net. repeat split; auto.
  - intros (m & n & _ & _ & [= <-] & _ & [= <-] & Hp' & _). left. congruence.
Qed.

(** X18. What a call does to the store beyond the wait, which is handed
    the store and may do with it what it does. When the wait, the client or
    the instance fetch fails, the call adds no request: store and requests
    are those of the wait. Otherwise it adds exactly what ensureValidUUID
    does with the fetched instance ID on the store the wait left, whether or
    not the call then succeeds: an override created by a call stays when
    the network fetch, the translation or the hand-off fails afterwards. In
    every case the writes it adds to those of the wait are at most the one
    Create of the override. *)
Theorem NetworkConfiguration_store (c : Collaborators) (env : Env) (st : Store) :
  ((errOf (Wait c env st) <> None \/ NewClient c <> None \/
    exists err, GetInstance c = Err err) ->
   storeOf (NetworkConfiguration c env st) = storeOf (Wait c env st) /\
   logOf (NetworkConfiguration c env st) = logOf (Wait c env st)) /\
  (forall metadata : InstanceData.t,
     errOf (Wait c env st) = None -> NewClient c = None -> GetInstance c = OK metadata ->
     storeOf (NetworkConfiguration c env st) =
       storeOf (ensureValidUUID (InstanceData.ID metadata) env (storeOf (Wait c env st))) /\
     logOf (NetworkConfiguration c env st) =
       (logOf (Wait c env st) ++
        logOf (ensureValidUUID (InstanceData.ID metadata) env (storeOf (Wait c env st))))%list) /\
  (exists added,
     writes (logOf (NetworkConfiguration c env st)) =
       (writes (logOf (Wait c env st)) ++ added)%list /\
     (added = [] \/
      exists metadata, GetInstance c = OK metadata /\
                       added = [createOverride (InstanceData.ID metadata)])).
Proof.
  split; [|split].
  - intros Hfail. destruct (NetworkConfiguration_not_fetched c env st Hfail) as [err ->].
    split; reflexivity.
  - intros metadata Hw Hn Hi.
    rewrite (NetworkConfiguration_fetched c env st metadata Hw Hn Hi). split; reflexivity.
  - destruct (errOf (Wait c env st)) as [e|] eqn:Hw.
    { destruct (NetworkConfiguration_not_fetched c env st) as [err ->];
        [left; rewrite Hw; discriminate|].
      exists []. cbn [logOf snd]. rewrite app_nil_r. auto. }
    destruct (NewClient c) as [e|] eqn:Hn.
    { destruct (NetworkConfiguration_not_fetched c env st) as [err ->];
        [right; left; rewrite Hn; discriminate|].
      exists []. cbn [logOf snd]. rewrite app_nil_r. auto. }
    destruct (GetInstance c) as [metadata|e] eqn:Hi.
    2:{ destruct (NetworkConfiguration_not_fetched c env st) as [err ->];
          [right; right; eauto|].
        exists []. cbn [logOf snd]. rewrite app_nil_r. auto. }
    rewrite (NetworkConfiguration_fetched c env st metadata Hw Hn Hi).
    change (logOf (?a, ?b, ?l)) with l. rewrite writes_app.
    destruct (ensureValidUUID_writes_cases env (storeOf (Wait c env st))
                (InstanceData.ID metadata)) as [E|E]; rewrite E.
    + exists []. auto.
    + exists [createOverride (InstanceData.ID metadata)]. split; [reflexivity|].
      right. exists metadata. auto.
Qed.
End Platform.

Lemma Configuration_result_witness :
  errOf (@Configuration PlatformErrors_model
           (scenarioCollaborators "node-1" "#cloud-config" (OK scenarioNetwork))
           reliable (storeOfOptions None None)) = OK "#cloud-config" /\
  errOf (@Configuration PlatformErrors_model
           (scenarioCollaborators "node-1" "" (OK scenarioNetwork))
           reliable (storeOfOptions None None)) =
    Err (@ErrNoConfigSource PlatformErrors_model).
Proof.
  split.
  - apply (proj2 (proj1 (@Configuration_result PlatformErrors_model _ reliable
                           (storeOfOptions None None) "#cloud-config"))).
    repeat split; discriminate.
  - apply (proj1 (proj2 (@Configuration_result PlatformErrors_model
                    (scenarioCollaborators "node-1" "" (OK scenarioNetwork)) reliable
                    (storeOfOptions None None) ""))); reflexivity.
Defined.

(** The network fetch fails after the override was created: the call
    returns the error and the override stays. *)
Lemma NetworkConfiguration_store_witness :
  let c := scenarioCollaborators "node-1" "" (Err deadlineExceeded) in
  let r := @NetworkConfiguration ResourceIDs_model NetipText_model Machinery_model c
             reliable (storeOfOptions None (Some zeroUUID)) in
  (errOf r).1 = Some (Errorf "get network data: %w" [] deadlineExceeded) /\
  MetaKeys (storeOf r) !! "0x0e" = Some {| Value := "00000000-0000-0000-0000-000079475478" |}.
Proof.
  intros c r. split; [vm_compute; reflexivity|]. subst r.
  rewrite (proj1 (proj1 (proj2 (@NetworkConfiguration_store ResourceIDs_model NetipText_model
                           Machinery_model c reliable (storeOfOptions None (Some zeroUUID))))
                        (scenarioInstance "node-1") eq_refl eq_refl eq_refl)).
  vm_compute. reflexivity.
Defined.

Lemma NetworkConfiguration_handoff_witness :
  let c := scenarioCollaborators "node-1.example.com" "" (OK scenarioNetwork) in
  let r := @NetworkConfiguration ResourceIDs_model NetipText_model Machinery_model c
             reliable (storeOfOptions None (Some zeroUUID)) in
  (errOf r).1 = None /\ (length (errOf r).2 <= 1)%nat.
Proof.
  intros c r.
  destruct (@NetworkConfiguration_handoff ResourceIDs_model NetipText_model Machinery_model
              c reliable (storeOfOptions None (Some zeroUUID))) as (Hiff & Hlen & _).
  split; [|exact Hlen]. apply (proj2 Hiff). vm_compute. discriminate.
Defined.
